(** * Incremental extraction of performance alerts: checkpoint, schema guard,
      chunked loop and final merge

    A shallow embedding of [ExtractAlerts.extract]
    (src/treeherder/extract/extract_alerts.py).  The routine talks to four
    collaborators (a key-value store, the relational source, the snowflake
    extractor and the analytical destination); every call to one of them is
    recorded in a trace and may raise, as decided by the environment.

    Conventions.  The store maps string keys to byte strings, written here as
    strings; the utf8 encoding and decoding around [value2json] and
    [json2value] is part of these two functions.  Timestamps are integers.
    The [while True] loop takes a bound on its number of rounds and a run
    that needs more is reported as [Diverge]; statements about every run
    quantify over the bound. *)

From Stdlib Require Import ZArith Lia Sorted.
From stdpp Require Import base option list strings gmap pretty.

Set Default Proof Using "Type".

(** ** Data model *)

(** Timestamps ([mo_times.dates.Date]) are points on the unix time line. *)
Definition Date : Type := Z.

(** [settings.extractor]: the job identity, the two store keys and the page
    size.  A missing [app_name] reads as a falsy value. *)
Record Settings := {
  extractor_app_name : option string;
  extractor_key : string;
  extractor_sql : string;
  extractor_chunk_size : nat;
}.

(** Rows of [treeherder.performance_alert_summary] (alias [s]) and of
    [treeherder.performance_alert] (alias [a]), with the columns the
    extraction query mentions. *)
Record Summary := {
  s_id : Z;
  s_created : Date;
  s_last_updated : Date;
}.

Record Alert := {
  a_summary_id : Z;
  a_last_updated : Date;
}.

Record Source := {
  summaries : list Summary;
  alerts : list Alert;
}.

(** A document built by the extractor: the loop reads [created] and [id] and
    writes [etl.timestamp]. *)
Record Doc := {
  doc_id : Z;
  doc_created : Date;
  etl_timestamp : option Date;
}.

(** The persisted extraction state: [(last_modified, alert_id)]. *)
Definition State : Type := Date * Z.

Definition zero_state : State := (0%Z, 0%Z).

(** Lexicographic order on states. *)
Definition state_le (c1 c2 : State) : bool :=
  (c1.1 <? c2.1)%Z || ((c1.1 =? c2.1)%Z && (c1.2 <=? c2.2)%Z).

(** Python truthiness of an optional (byte) string: [None] and the empty
    string are falsy. *)
Definition truthy (o : option string) : bool :=
  match o with
  | Some s => negb (s =? "")%string
  | None => false
  end.

(** The test of line 64:
    [old_sql and old_sql.decode("utf8") != canonical_sql.sql]. *)
Definition schema_changed (old_sql : option string) (canonical : string) : bool :=
  truthy old_sql && negb (default "" old_sql =? canonical)%string.
Global Arguments schema_changed : simpl never.

(** ** Collaborator calls, events and exceptions *)

(** The places of [extract] where a collaborator is called (source lines in
    comments); loop sites carry the number of the round. *)
Inductive Site :=
| AtDestination          (* 36-38 *)
| AtPreMerge             (* 43 *)
| AtRedisOpen            (* 46 *)
| AtGetState             (* 47 *)
| AtSetZero              (* 51 *)
| AtScanSchema           (* 59 *)
| AtCanonicalSql         (* 60 *)
| AtGetOldSql            (* 63 *)
| AtSetSql               (* 69 *)
| AtOpenSource           (* 72 *)
| AtGetSql (n : nat)     (* 98 *)
| AtQuery (n : nat)      (* 102-104 *)
| AtExtend (n : nat)     (* 109 *)
| AtCommit (n : nat)     (* 114-116 *)
| AtFinalMerge.          (* 128 *)

Inductive Op :=
| GetOrCreateTable
| MergeShards
| RedisFromUrl
| RedisGet (k : string)
| RedisSet (k : string) (v : string)
| ScanSchema
| GetSql
| OpenSource
| SourceQuery (last_year last_modified : Date) (limit : nat)
| Extend (acc : list Doc).

Inductive Level := NOTE | WARNING | ERROR.

Inductive Event :=
| Called (s : Site) (op : Op) (ok : bool)
| Logged (l : Level) (msg : string)
| LogStop.

Inductive Exn :=
| Failure (s : Site)
| LogError (msg : string)
| JsonError
| IndexError.

(** What the world looks like to one invocation: which collaborator calls
    raise, the clock, the source snapshot seen by the transaction of each
    round and the query text the extractor generates for the scanned schema. *)
Record Env := {
  fails : Site → bool;
  today : nat → Date;
  now : nat → nat → Date;
  source : nat → Source;
  canonical_sql : string;
}.

(** Library functions and constants that [extract] imports and that are not
    part of the repository: the durations of [mo_times], the serialisation of
    [mo_json] and the document construction of the snowflake extractor
    ([extractor.get_sql(get_ids)] run through [construct_docs]).  The general
    statements hold for any such library. *)
Class Libs := {
  DAY : Z;
  YEAR : Z;
  value2json : State → string;
  json2value : string → option State;
  construct_docs : Source → list Z → list Doc;
}.

(** ** A state, trace and exception monad *)

Inductive Res (A : Type) :=
| Ok (a : A)
| Raise (e : Exn)
| Diverge.
Arguments Ok {A} a.
Arguments Raise {A} e.
Arguments Diverge {A}.

(** A computation takes the store and gives a result, the store afterwards
    and the events it produced, oldest first. *)
Definition M (A : Type) : Type :=
  gmap string string → Res A * gmap string string * list Event.

Definition ret {A} (a : A) : M A := λ σ, (Ok a, σ, []).

Definition bind {A B} (m : M A) (f : A → M B) : M B := λ σ,
  match m σ with
  | (Ok a, σ1, t1) => let '(r, σ2, t2) := f a σ1 in (r, σ2, t1 ++ t2)
  | (Raise e, σ1, t1) => (Raise e, σ1, t1)
  | (Diverge, σ1, t1) => (Diverge, σ1, t1)
  end.

(** [try: m except Exception as e: h e]. *)
Definition try_except {A} (m : M A) (h : Exn → M A) : M A := λ σ,
  match m σ with
  | (Raise e, σ1, t1) => let '(r, σ2, t2) := h e σ1 in (r, σ2, t1 ++ t2)
  | other => other
  end.

Definition raise {A} (e : Exn) : M A := λ σ, (Raise e, σ, []).
Definition diverge {A} : M A := λ σ, (Diverge, σ, []).
Definition emit (e : Event) : M unit := λ σ, (Ok tt, σ, [e]).
Definition when (b : bool) (m : M unit) : M unit := if b then m else ret tt.

(** The monad is used through stdpp's [x ← m; k] and [m ;; k]. *)
#[global] Instance M_ret : MRet M := @ret.
#[global] Instance M_bind : MBind M := λ A B f m, bind m f.

(** The three components of a run. *)
Definition result {A} (x : Res A * gmap string string * list Event) : Res A := x.1.1.
Definition store {A} (x : Res A * gmap string string * list Event) : gmap string string := x.1.2.
Definition trace {A} (x : Res A * gmap string string * list Event) : list Event := x.2.
Arguments result {A} !x /.
Arguments store {A} !x /.
Arguments trace {A} !x /.

(** ** The extraction query *)

(** [FROM performance_alert_summary s LEFT JOIN performance_alert a
     ON s.id = a.summary_id]. *)
Definition left_join (db : Source) : list (Summary * option Alert) :=
  flat_map
    (λ s, match filter (λ a, a_summary_id a = s_id s) (alerts db) with
          | [] => [(s, None)]
          | matching => (λ a, (s, Some a)) <$> matching
          end)
    (summaries db).

(** [WHERE s.created > last_year
     AND (s.last_updated > last_modified OR a.last_updated > last_modified)];
    a comparison with the NULL of an unmatched left join is not true. *)
Definition where_clause (last_year last_modified : Date)
    (row : Summary * option Alert) : bool :=
  (last_year <? s_created row.1)%Z
  && ((last_modified <? s_last_updated row.1)%Z
      || match row.2 with
         | Some a => (last_modified <? a_last_updated a)%Z
         | None => false
         end).

(** [GROUP BY s.id ORDER BY s.id]: one identifier per group, ascending. *)
Fixpoint insert_id (i : Z) (l : list Z) : list Z :=
  match l with
  | [] => [i]
  | j :: l' =>
      if (i <? j)%Z then i :: l
      else if (i =? j)%Z then l
      else j :: insert_id i l'
  end.

Definition group_order_by_id (ids : list Z) : list Z := foldr insert_id [] ids.

(** All identifiers the window selects, before [LIMIT]. *)
Definition selected_ids (db : Source) (last_year last_modified : Date) : list Z :=
  group_order_by_id
    (s_id ∘ fst <$> filter (λ row, Is_true (where_clause last_year last_modified row))
                            (left_join db)).

(** The whole [get_ids] query, [LIMIT chunk_size] included. *)
Definition get_ids (db : Source) (last_year last_modified : Date) (limit : nat)
    : list Z :=
  take limit (selected_ids db last_year last_modified).

(** ** The extraction routine *)

Section Extract.
Context `{Libs} (env : Env) (settings : Settings).

(** A collaborator call: recorded, and raising when the environment says
    so. *)
Definition call (s : Site) (op : Op) : M unit := λ σ,
  if fails env s then (Raise (Failure s), σ, [Called s op false])
  else (Ok tt, σ, [Called s op true]).

Definition redis_get (s : Site) (k : string) : M (option string) := λ σ,
  if fails env s then (Raise (Failure s), σ, [Called s (RedisGet k) false])
  else (Ok (σ !! k), σ, [Called s (RedisGet k) true]).

Definition redis_set (s : Site) (k v : string) : M unit := λ σ,
  if fails env s then (Raise (Failure s), σ, [Called s (RedisSet k v) false])
  else (Ok tt, <[k := v]> σ, [Called s (RedisSet k v) true]).

(** [Log.error] logs and raises; [Log.warning] and [Log.note] only log. *)
Definition Log_error {A} (msg : string) : M A :=
  emit (Logged ERROR msg) ;; raise (LogError msg).
Definition Log_warning (msg : string) : M unit := emit (Logged WARNING msg).
Definition Log_note (msg : string) : M unit := emit (Logged NOTE msg).

(** [Date.today() - YEAR + DAY]. *)
Definition last_year_of (today_ : Date) : Date := (today_ - YEAR + DAY)%Z.

(** Lines 101-104: the query runs in a transaction and the extractor folds
    its rows into documents. *)
Definition fetch (n : nat) (last_year last_modified : Date) : M (list Doc) :=
  call (AtQuery n)
       (SourceQuery last_year last_modified (extractor_chunk_size settings)) ;;
  ret (construct_docs (source env n)
         (get_ids (source env n) last_year last_modified
                  (extractor_chunk_size settings))).

(** Lines 107-108: [for r in acc: r.etl.timestamp = Date.now()]. *)
Definition stamp (n : nat) (acc : list Doc) : list Doc :=
  imap (λ k r, {| doc_id := doc_id r; doc_created := doc_created r;
                  etl_timestamp := Some (now env n k) |}) acc.

(** Lines 74-119: [while True].  [fuel] bounds the number of rounds; a loop
    that needs more gives [Diverge].  The note is logged with its template;
    [acc[-1]] raises on an empty list. *)
Fixpoint loop (fuel n : nat) (last_modified : Date) (alert_id : Z) : M unit :=
  match fuel with
  | O => diverge
  | S fuel' =>
      Log_note "Extracting alerts for last_modified={{last_modified|datetime|quote}}, alert.id={{alert_id}}" ;;
      let last_year := last_year_of (today env n) in
      call (AtGetSql n) GetSql ;;
      acc ← fetch n last_year last_modified;
      match acc with
      | [] => ret tt
      | _ :: _ =>
          let acc := stamp n acc in
          call (AtExtend n) (Extend acc) ;;
          match last acc with
          | None => raise IndexError
          | Some last_doc =>
              let last_modified := doc_created last_doc in
              let alert_id := doc_id last_doc in
              redis_set (AtCommit n) (extractor_key settings)
                        (value2json (last_modified, alert_id)) ;;
              if length acc <? extractor_chunk_size settings then ret tt
              else loop fuel' (S n) last_modified alert_id
          end
      end
  end.

(** Lines 45-56: recover the last state, or reset it. *)
Definition recover_state (restart : bool) : M State :=
  call AtRedisOpen RedisFromUrl ;;
  state ← redis_get AtGetState (extractor_key settings);
  if restart || negb (truthy state) then
    redis_set AtSetZero (extractor_key settings) (value2json zero_state) ;;
    ret zero_state
  else
    match state ≫= json2value with
    | Some st => ret st
    | None => raise JsonError
    end.

(** Lines 58-69: generate the canonical query and compare it with the one of
    the last run. *)
Definition ensure_schema (force : bool) : M unit :=
  call AtScanSchema ScanSchema ;;
  call AtCanonicalSql GetSql ;;
  old_sql ← redis_get AtGetOldSql (extractor_sql settings);
  when (schema_changed old_sql (canonical_sql env))
       (if force then Log_warning "Schema has changed"
        else Log_error "Schema has changed") ;;
  redis_set AtSetSql (extractor_sql settings) (canonical_sql env).

(** Lines 41-72: what the first [try] does before the loop; it hands the
    recovered state to the loop. *)
Definition prelude (force restart merge : bool) : M State :=
  when merge (call AtPreMerge MergeShards) ;;
  st ← recover_state restart;
  ensure_schema force ;;
  call AtOpenSource OpenSource ;;
  mret st.

(** Lines 41-119: the body of the first [try]. *)
Definition guarded (fuel : nat) (force restart merge : bool) : M unit :=
  st ← prelude force restart merge;
  loop fuel 0 st.1 st.2.

(** Lines 124-133. *)
Definition finish : M unit :=
  Log_note "done alert extraction" ;;
  try_except (call AtFinalMerge MergeShards)
             (λ _, Log_warning "problem with merge") ;;
  Log_note "done alert merge" ;;
  emit LogStop.

Definition extract (fuel : nat) (force restart merge : bool) : M unit :=
  when (negb (truthy (extractor_app_name settings)))
       (Log_error "Expecting an extractor.app_name in config file") ;;
  call AtDestination GetOrCreateTable ;;
  try_except (guarded fuel force restart merge)
             (λ _, Log_warning "problem with extraction") ;;
  finish.

End Extract.

(** ** Observations on runs *)

(** Classes of events. *)
Definition is_query (e : Event) : bool :=
  match e with Called (AtQuery _) _ _ => true | _ => false end.
Definition is_extend (e : Event) : bool :=
  match e with Called (AtExtend _) _ _ => true | _ => false end.
Definition is_commit (e : Event) : bool :=
  match e with Called (AtCommit _) _ _ => true | _ => false end.
Definition is_merge (e : Event) : bool :=
  match e with Called _ MergeShards _ => true | _ => false end.
Definition is_drift_error (e : Event) : bool :=
  match e with Logged ERROR "Schema has changed" => true | _ => false end.

(** Events of the loop: its note and the calls of a round. *)
Definition in_loop (e : Event) : bool :=
  match e with
  | Called (AtGetSql _) GetSql _
  | Called (AtQuery _) (SourceQuery _ _ _) _
  | Called (AtExtend _) (Extend _) _
  | Called (AtCommit _) (RedisSet _ _) _ => true
  | Logged NOTE "Extracting alerts for last_modified={{last_modified|datetime|quote}}, alert.id={{alert_id}}" => true
  | _ => false
  end.

(** Events of the prelude. *)
Definition in_prelude (e : Event) : bool :=
  match e with
  | Called AtPreMerge MergeShards _
  | Called AtRedisOpen RedisFromUrl _
  | Called AtGetState (RedisGet _) _
  | Called AtSetZero (RedisSet _ _) _
  | Called AtScanSchema ScanSchema _
  | Called AtCanonicalSql GetSql _
  | Called AtGetOldSql (RedisGet _) _
  | Called AtSetSql (RedisSet _ _) _
  | Called AtOpenSource OpenSource _ => true
  | Logged (WARNING | ERROR) "Schema has changed" => true
  | _ => false
  end.

(** The batches whose delivery completed, the values the loop committed and
    the windows it queried, in order. *)
Definition deliveries (t : list Event) : list (list Doc) :=
  omap (λ e, match e with
             | Called (AtExtend _) (Extend acc) true => Some acc
             | _ => None
             end) t.

Definition commits (t : list Event) : list string :=
  omap (λ e, match e with
             | Called (AtCommit _) (RedisSet _ v) true => Some v
             | _ => None
             end) t.

Definition queries (t : list Event) : list (Date * Date * nat) :=
  omap (λ e, match e with
             | Called (AtQuery _) (SourceQuery ly lm limit) _ => Some (ly, lm, limit)
             | _ => None
             end) t.

(** An identifier is eligible for a window when its summary row is younger
    than the retention cutoff and the row, or one of its alerts, was updated
    after the checkpoint's timestamp. *)
Definition eligible (db : Source) (cutoff last_modified : Date) (i : Z) : Prop :=
  ∃ s, s ∈ summaries db ∧ s_id s = i ∧ (cutoff < s_created s)%Z
       ∧ ((last_modified < s_last_updated s)%Z
          ∨ ∃ a, a ∈ alerts db ∧ a_summary_id a = i
                 ∧ (last_modified < a_last_updated a)%Z).

Section Observations.
Context `{Libs} (env : Env) (settings : Settings).

(** Whether lines 49-51 reset the state, and the state lines 49-55 hand
    on. *)
Definition resets (restart : bool) (σ : gmap string string) : bool :=
  restart || negb (truthy (σ !! extractor_key settings)).

Definition recovered (restart : bool) (σ : gmap string string) : option State :=
  if resets restart σ then Some zero_state
  else σ !! extractor_key settings ≫= json2value.

(** The write of the zero state. *)
Definition zero_write : Event :=
  Called AtSetZero
    (RedisSet (extractor_key settings) (value2json zero_state)) true.

(** The schema guard finds a fingerprint other than the current query. *)
Definition drifted (σ : gmap string string) : Prop :=
  ∃ old, σ !! extractor_sql settings = Some old
         ∧ old ≠ "" ∧ old ≠ canonical_sql env.

(** No collaborator call raises up to the state reset of line 51. *)
Definition reaches_reset (merge : bool) : Prop :=
  truthy (extractor_app_name settings) = true
  ∧ fails env AtDestination = false
  ∧ (merge = true → fails env AtPreMerge = false)
  ∧ fails env AtRedisOpen = false
  ∧ fails env AtGetState = false.


(** What [finish] logs and calls. *)
Definition finish_trace : list Event :=
  [Logged NOTE "done alert extraction";
   Called AtFinalMerge MergeShards (negb (fails env AtFinalMerge))]
  ++ (if fails env AtFinalMerge then [Logged WARNING "problem with merge"] else [])
  ++ [Logged NOTE "done alert merge"; LogStop].

(** A loop commit is acceptable after [prev] when [prev] is the completed
    delivery of a non-empty batch of the same round and the value written
    is the serialised [(created, id)] of the last document of that batch. *)
Definition commit_ok (prev : option Event) (e : Event) : Prop :=
  match e with
  | Called (AtCommit n) op ok =>
      ∃ acc last_doc,
        prev = Some (Called (AtExtend n) (Extend acc) true)
        ∧ last acc = Some last_doc
        ∧ op = RedisSet (extractor_key settings)
                 (value2json (doc_created last_doc, doc_id last_doc))
  | _ => True
  end.

Fixpoint commits_follow_delivery (prev : option Event) (t : list Event) : Prop :=
  match t with
  | [] => True
  | e :: t' => commit_ok prev e ∧ commits_follow_delivery (Some e) t'
  end.

Definition last_event (prev : option Event) (t : list Event) : option Event :=
  match last t with Some e => Some e | None => prev end.

End Observations.

(** ** Further observations *)

(** The successful write of the zero state, and counting events of a class. *)
Definition is_zero_write (e : Event) : bool :=
  match e with Called AtSetZero (RedisSet _ _) true => true | _ => false end.

Definition count_events (P : Event → bool) (t : list Event) : nat :=
  length (List.filter P t).

(** The checkpoint an invocation leaves under the key, read off its trace:
    the last value the loop committed, else the zero state when the reset
    was written, else what was there. *)
Definition checkpoint_after (zero : string) (before : option string)
    (t : list Event) : option string :=
  match last (commits t) with
  | Some v => Some v
  | None => if existsb is_zero_write t then Some zero else before
  end.

Section FurtherObservations.
Context `{Libs} (env : Env) (settings : Settings).

(** A call of [extend] in round [n] is acceptable after [prev] when [prev]
    is the completed query of that round, for that round's cutoff and the
    page size, and the call carries the documents of exactly that query,
    not empty and stamped. *)
Definition delivery_ok (prev : option Event) (e : Event) : Prop :=
  match e with
  | Called (AtExtend n) op _ =>
      ∃ lm d ds,
        prev = Some (Called (AtQuery n)
                       (SourceQuery (last_year_of (today env n)) lm
                                    (extractor_chunk_size settings)) true)
        ∧ construct_docs (source env n)
            (get_ids (source env n) (last_year_of (today env n)) lm
                     (extractor_chunk_size settings)) = d :: ds
        ∧ op = Extend (stamp env n (d :: ds))
  | _ => True
  end.

Fixpoint deliveries_follow_query (prev : option Event) (t : list Event) : Prop :=
  match t with
  | [] => True
  | e :: t' => delivery_ok prev e ∧ deliveries_follow_query (Some e) t'
  end.

End FurtherObservations.

(** ** The caller: [ExtractAlerts.run] *)

(** Lines 21-23: reading the settings, setting the constants and starting
    the log; each may raise. *)
Inductive StartupStep := ReadSettings | SetConstants | LogStart.

(** What [run] does: its own startup calls, and the events of [extract] and
    of its own logging. *)
Inductive RunEvent :=
| Startup (s : StartupStep) (ok : bool)
| Ev (e : Event).

(** Lines 21-23, up to the first call that raises; [startup_raises] tells
    which call raises what. *)
Definition startup (startup_raises : StartupStep → option Exn)
    : option Exn * list RunEvent :=
  match startup_raises ReadSettings with
  | Some e => (Some e, [Startup ReadSettings false])
  | None =>
      match startup_raises SetConstants with
      | Some e => (Some e, [Startup ReadSettings true; Startup SetConstants false])
      | None =>
          match startup_raises LogStart with
          | Some e =>
              (Some e, [Startup ReadSettings true; Startup SetConstants true;
                        Startup LogStart false])
          | None =>
              (None, [Startup ReadSettings true; Startup SetConstants true;
                      Startup LogStart true])
          end
      end
  end.

Section Run.
Context `{Libs} (startup_raises : StartupStep → option Exn) (env : Env)
  (settings : Settings).

(** Lines 19-25: the body of the [try]; [settings] is what [read_settings]
    returns. *)
Definition run_body (fuel : nat) (force restart merge : bool)
    (σ : gmap string string) : Res () * gmap string string * list RunEvent :=
  match startup startup_raises with
  | (None, t0) =>
      let '(r, σ1, t) := extract env settings fuel force restart merge σ in
      (r, σ1, t0 ++ (Ev <$> t))
  | (Some e, t0) => (Raise e, σ, t0)
  end.

(** Lines 18-29: any exception of the body is logged with [Log.error], which
    raises in its turn; [Log.stop] runs in every case. *)
Definition run (fuel : nat) (force restart merge : bool)
    (σ : gmap string string) : Res () * gmap string string * list RunEvent :=
  let '(r, σ1, t) := run_body fuel force restart merge σ in
  match r with
  | Ok _ => (Ok (), σ1, t ++ [Ev LogStop])
  | Raise _ =>
      (Raise (LogError "could not extract alerts"), σ1,
       t ++ [Ev (Logged ERROR "could not extract alerts"); Ev LogStop])
  | Diverge => (Diverge, σ1, t)
  end.

End Run.

(** ** The pulse command: [Command.handle] of [read_pulse_pushes] *)

(** An entry of [settings.PULSE_PUSH_SOURCES]. *)
Record PulseSource := {
  exchange : string;
  routing_keys : list string;
}.

(** What the command does to the broker, the consumer and its output. *)
Inductive PulseEvent :=
| NewConsumer (name : string)
| EnsureExchange (exchange_name : string) (ok : bool)
| BindTo (exchange_name routing_key : string)
| Write (line : string)
| PruneBindings (new_bindings : list string)
| ConsumerRun
| Release.

(** How [consumer.run()] ends. *)
Inductive RunEnd := Returns | KeyboardInterrupt | OtherException.

Inductive PulseExn :=
| ImproperlyConfigured (msg : string)
| ExchangeMissing (exchange_name : string)
| ConsumerFailed.

(** The broker and the consumer: which exchanges exist (declaring a passive
    exchange that does not exist raises), the binding string and queue name
    of the consumer, and the end of its run. *)
Record Pulse := {
  exchange_exists : string → bool;
  get_binding_str : string → string → string;
  queue_name : string;
  run_ends : RunEnd;
}.

Section Handle.
Context (p : Pulse).

(** Lines 45-49: ["Pulse queue {} bound to: {}".format(...)]. *)
Definition bound_line (new_binding_str : string) : string :=
  "Pulse queue " +:+ queue_name p +:+ " bound to: " +:+ new_binding_str.

(** Lines 38-49: the inner loop, over the routing keys of one source. *)
Fixpoint bind_routing_keys (exchange_name : string) (keys : list string)
    (new_bindings : list string) : list string * list PulseEvent :=
  match keys with
  | [] => (new_bindings, [])
  | routing_key :: keys' =>
      let new_binding_str := get_binding_str p exchange_name routing_key in
      let '(nb, t) := bind_routing_keys exchange_name keys'
                        (new_bindings ++ [new_binding_str]) in
      (nb, BindTo exchange_name routing_key
           :: Write (bound_line new_binding_str) :: t)
  end.

(** Lines 29-49: the outer loop, over the sources. *)
Fixpoint bind_sources (sources : list PulseSource) (new_bindings : list string)
    : (PulseExn + list string) * list PulseEvent :=
  match sources with
  | [] => (inr new_bindings, [])
  | source :: sources' =>
      if exchange_exists p (exchange source) then
        let '(nb, t) := bind_routing_keys (exchange source) (routing_keys source)
                          new_bindings in
        let '(r, t') := bind_sources sources' nb in
        (r, EnsureExchange (exchange source) true :: t ++ t')
      else
        (inl (ExchangeMissing (exchange source)),
         [EnsureExchange (exchange source) false])
  end.

(** Lines 53-56. *)
Definition run_consumer : option PulseExn * list PulseEvent :=
  match run_ends p with
  | Returns => (None, [ConsumerRun])
  | KeyboardInterrupt =>
      (None, [ConsumerRun; Write "Pulse Push listening stopped..."])
  | OtherException => (Some ConsumerFailed, [ConsumerRun])
  end.

(** Lines 19-56.  An empty (or missing) list of sources is falsy; leaving
    the [with] block releases the connection. *)
Definition handle (sources : list PulseSource) : option PulseExn * list PulseEvent :=
  match sources with
  | [] => (Some (ImproperlyConfigured "PULSE_DATA_INGESTION_SOURCES must be set"), [])
  | _ :: _ =>
      match bind_sources sources [] with
      | (inl e, t) => (Some e, NewConsumer "resultsets" :: t ++ [Release])
      | (inr new_bindings, t) =>
          let '(r, t') := run_consumer in
          (r, NewConsumer "resultsets"
              :: t ++ PruneBindings new_bindings :: t' ++ [Release])
      end
  end.

End Handle.

(** The binding strings the command is configured for, in its order. *)
Definition configured_bindings (p : Pulse) (sources : list PulseSource) : list string :=
  flat_map (λ s, get_binding_str p (exchange s) <$> routing_keys s) sources.

(** What binding the routing keys of one exchange, and binding all the
    sources, shows on the broker and on the output when every exchange
    exists. *)
Definition key_events (p : Pulse) (exchange_name : string) (keys : list string)
    : list PulseEvent :=
  flat_map (λ k, [BindTo exchange_name k;
                  Write (bound_line p (get_binding_str p exchange_name k))]) keys.

Definition source_events (p : Pulse) (sources : list PulseSource) : list PulseEvent :=
  flat_map (λ s, EnsureExchange (exchange s) true
                 :: key_events p (exchange s) (routing_keys s)) sources.

Definition is_prune (e : PulseEvent) : bool :=
  match e with PruneBindings _ => true | _ => false end.

Definition is_consumer_run (e : PulseEvent) : bool :=
  match e with ConsumerRun => true | _ => false end.

Definition is_bind (e : PulseEvent) : bool :=
  match e with BindTo _ _ => true | _ => false end.

Definition all_exist (p : Pulse) (sources : list PulseSource) : bool :=
  forallb (λ s, exchange_exists p (exchange s)) sources.

(** A broker on which every exchange but one exists, and a configuration
    of two sources, to run the command on. *)
Definition example_broker (end_of_run : RunEnd) : Pulse := {|
  exchange_exists := λ e, negb (String.eqb e "exchange/missing");
  get_binding_str := λ e k, e +:+ " " +:+ k;
  queue_name := "queue/resultsets";
  run_ends := end_of_run;
|}.

Definition github_source : PulseSource :=
  {| exchange := "exchange/github"; routing_keys := ["push.#"; "pull.#"] |}.

Definition hg_source : PulseSource :=
  {| exchange := "exchange/hg"; routing_keys := ["#"] |}.

Definition missing_source : PulseSource :=
  {| exchange := "exchange/missing"; routing_keys := ["#"] |}.

(** ** A concrete instance of the libraries, to run the routine on examples *)

Module Reference.

Definition digit_of (a : Ascii.ascii) : option Z :=
  let n := Ascii.nat_of_ascii a in
  if (48 <=? n) && (n <=? 57) then Some (Z.of_nat (n - 48)) else None.

Fixpoint read_digits (acc : Z) (s : string) : Z * string :=
  match s with
  | String a s' =>
      match digit_of a with
      | Some d => read_digits (10 * acc + d) s'
      | None => (acc, s)
      end
  | EmptyString => (acc, s)
  end.

(** An optional minus sign and at least one digit. *)
Definition read_int (s : string) : option (Z * string) :=
  let '(neg, s1) := match s with
                    | String a s' =>
                        if Ascii.eqb a (Ascii.ascii_of_nat 45) then (true, s') else (false, s)
                    | EmptyString => (false, s)
                    end in
  match s1 with
  | String a _ =>
      match digit_of a with
      | Some _ =>
          let '(v, rest) := read_digits 0 s1 in
          Some (if neg : bool then (- v)%Z else v, rest)
      | None => None
      end
  | EmptyString => None
  end.

Definition expect (p s : string) : option string :=
  if String.prefix p s
  then Some (String.substring (String.length p) (String.length s - String.length p) s)
  else None.

(** A two-element JSON array of integers, as the encoder writes it. *)
Definition encode (st : State) : string :=
  "[" +:+ pretty st.1 +:+ ", " +:+ pretty st.2 +:+ "]".

Definition decode (s : string) : option State :=
  s1 ← expect "[" s;
  '(a, s2) ← read_int s1;
  s3 ← expect ", " s2;
  '(b, s4) ← read_int s3;
  if (s4 =? "]")%string then Some (a, b) else None.

(** The extractor folds the joined rows of a summary into one document:
    one document per selected identifier, in the order of the identifiers,
    carrying the [id] and [created] columns of its summary row. *)
Definition docs_of (db : Source) (ids : list Z) : list Doc :=
  omap (λ i, (λ s, {| doc_id := s_id s; doc_created := s_created s;
                      etl_timestamp := None |})
             <$> List.find (λ s, (s_id s =? i)%Z) (summaries db))
       ids.

(** Durations in days. *)
#[export] Instance libs : Libs := {|
  DAY := 1;
  YEAR := 365;
  value2json := encode;
  json2value := decode;
  construct_docs := docs_of;
|}.

End Reference.


(** ** Scenarios *)

Module Scenario.
Import Reference.
Local Open Scope Z_scope.

(** Four summaries created on days 700 to 730; the first one was updated
    again on day 800.  No alerts. *)
Definition summary1 := {| s_id := 1; s_created := 700; s_last_updated := 800 |}.
Definition summary2 := {| s_id := 2; s_created := 710; s_last_updated := 710 |}.
Definition summary3 := {| s_id := 3; s_created := 720; s_last_updated := 720 |}.
Definition summary4 := {| s_id := 4; s_created := 730; s_last_updated := 730 |}.

Definition four_rows : Source :=
  {| summaries := [summary1; summary2; summary3; summary4]; alerts := [] |}.

Definition one_row : Source := {| summaries := [summary1]; alerts := [] |}.

Definition two_rows : Source :=
  {| summaries := [summary1; summary2]; alerts := [] |}.

Definition no_rows : Source := {| summaries := []; alerts := [] |}.

(** Day 1000, a constant source, and the given failures. *)
Definition world (db : Source) (failing : Site → bool) : Env :=
  {| fails := failing; today := λ _, 1000; now := λ _ _, 1000;
     source := λ _, db; canonical_sql := "SELECT s.id, s.created" |}.

Definition calm : Site → bool := λ _, false.

Definition config (chunk_size : nat) : Settings :=
  {| extractor_app_name := Some "alerts"; extractor_key := "alerts.state";
     extractor_sql := "alerts.sql"; extractor_chunk_size := chunk_size |}.

(** A store that holds a state and no fingerprint, and the store left by
    an earlier run against another schema. *)
Definition state_only : gmap string string :=
  <["alerts.state" := "[650, 7]"]> ∅.

Definition old_store : gmap string string :=
  <["alerts.sql" := "SELECT s.id"]> state_only.

(** The second delivery and the final merge raise. *)
Definition second_delivery_fails (s : Site) : bool :=
  match s with
  | AtExtend 1 | AtFinalMerge => true
  | _ => false
  end.

(** The operator-requested merge raises. *)
Definition pre_merge_fails (s : Site) : bool :=
  match s with
  | AtPreMerge => true
  | _ => false
  end.


(** A first run over the single updated row from an empty store, and a
    second run over the same source from the store the first one left. *)
Definition first_run : Res () * gmap string string * list Event :=
  extract (world one_row calm) (config 2) 9 false false false ∅.

Definition second_run : Res () * gmap string string * list Event :=
  extract (world one_row calm) (config 2) 9 false false false (store first_run).

(** A run over the four rows, two to a page, from an empty store. *)
Definition paged_run : Res () * gmap string string * list Event :=
  extract (world four_rows calm) (config 2) 9 false false false ∅.

(** Three summaries created and last updated on the same day 700, and a run
    over them, two to a page, from an empty store, followed by a second run
    over the same source from the store the first one left. *)
Definition tied1 := {| s_id := 1; s_created := 700; s_last_updated := 700 |}.
Definition tied2 := {| s_id := 2; s_created := 700; s_last_updated := 700 |}.
Definition tied3 := {| s_id := 3; s_created := 700; s_last_updated := 700 |}.

Definition tied_rows : Source :=
  {| summaries := [tied1; tied2; tied3]; alerts := [] |}.

Definition tied_run : Res () * gmap string string * list Event :=
  extract (world tied_rows calm) (config 2) 9 false false false ∅.

Definition tied_rerun : Res () * gmap string string * list Event :=
  extract (world tied_rows calm) (config 2) 9 false false false (store tied_run).

End Scenario.

Import Reference Scenario.


(** ** Running the routine symbolically *)

Ltac exec :=
  unfold extract, finish, guarded, prelude, ensure_schema, recover_state, fetch,
    Log_error, Log_warning, Log_note, when, call, redis_get, redis_set,
    emit, raise, diverge, try_except, mbind, M_bind, bind, mret, M_ret, ret;
  simpl.

Ltac exec_loop := simpl loop; exec.

(** Case analysis on every outcome met on the way, in program order: the
    next test to decide is one whose condition holds no other test. *)
Ltac atomic_test b :=
  lazymatch b with
  | context [if _ then _ else _] => fail
  | context [match _ with _ => _ end] => fail
  | _ => idtac
  end.

Ltac path_step :=
  match goal with
  | |- context [if ?b then _ else _] => atomic_test b; destruct b eqn:?
  | |- context [match ?x with _ => _ end] => atomic_test x; destruct x eqn:?
  end; simpl.

Ltac paths := repeat path_step.

Section Anatomy.
Context `{Libs} (env : Env) (settings : Settings).

Lemma finish_run σ : finish env σ = (Ok (), σ, finish_trace env).
Proof. unfold finish_trace. exec. by paths. Qed.

Lemma guarded_run fuel force restart merge σ :
  guarded env settings fuel force restart merge σ =
  match prelude env settings force restart merge σ with
  | (Ok st, σ1, t1) =>
      let '(r, σ2, t2) := loop env settings fuel 0 st.1 st.2 σ1 in
      (r, σ2, t1 ++ t2)
  | (Raise e, σ1, t1) => (Raise e, σ1, t1)
  | (Diverge, σ1, t1) => (Diverge, σ1, t1)
  end.
Proof. done. Qed.

Lemma extract_run fuel force restart merge σ :
  extract env settings fuel force restart merge σ =
  if negb (truthy (extractor_app_name settings)) then
    (Raise (LogError "Expecting an extractor.app_name in config file"), σ,
     [Logged ERROR "Expecting an extractor.app_name in config file"])
  else if fails env AtDestination then
    (Raise (Failure AtDestination), σ,
     [Called AtDestination GetOrCreateTable false])
  else
    match guarded env settings fuel force restart merge σ with
    | (Ok _, σ1, t1) =>
        (Ok (), σ1,
         Called AtDestination GetOrCreateTable true :: t1 ++ finish_trace env)
    | (Raise _, σ1, t1) =>
        (Ok (), σ1,
         Called AtDestination GetOrCreateTable true
           :: t1 ++ Logged WARNING "problem with extraction" :: finish_trace env)
    | (Diverge, σ1, t1) =>
        (Diverge, σ1, Called AtDestination GetOrCreateTable true :: t1)
    end.
Proof.
  unfold extract. generalize (guarded env settings fuel force restart merge).
  intros g. unfold finish_trace. exec.
  destruct (negb (truthy (extractor_app_name settings))); [done|].
  destruct (fails env AtDestination); simpl; [done|].
  destruct (g σ) as [[[] σ1] t1]; simpl; [| |done].
  all: destruct (fails env AtFinalMerge); simpl; by rewrite <- ?app_assoc.
Qed.

Lemma prelude_events force restart merge σ :
  Forall (λ e, in_prelude e = true)
         (trace (prelude env settings force restart merge σ)).
Proof. exec. paths; repeat constructor. Qed.

End Anatomy.

(** ** The loop *)

Section Loop.
Context `{Libs} (env : Env) (settings : Settings).

Lemma loop_events fuel n lm aid σ :
  Forall (λ e, in_loop e = true) (trace (loop env settings fuel n lm aid σ)).
Proof.
  revert n lm aid σ. induction fuel as [|fuel IH]; intros n lm aid σ; [by constructor|].
  exec_loop. paths; repeat constructor.
  match goal with
  | E : loop _ _ _ ?n' ?lm' ?aid' ?σ' = _ |- _ =>
      specialize (IH n' lm' aid' σ'); rewrite E in IH; exact IH
  end.
Qed.

Lemma cfd_app prev t1 t2 :
  commits_follow_delivery settings prev (t1 ++ t2)
  ↔ commits_follow_delivery settings prev t1
    ∧ commits_follow_delivery settings (last_event prev t1) t2.
Proof.
  revert prev. induction t1 as [|e t1 IH]; intros prev; simpl.
  - unfold last_event; simpl. tauto.
  - rewrite IH. unfold last_event. destruct t1 as [|e' t1]; [simpl; tauto|].
    rewrite last_cons_cons.
    destruct (last (e' :: t1)) eqn:El; [tauto|]. by apply last_None in El.
Qed.

Lemma cfd_no_commit prev t :
  Forall (λ e, is_commit e = false) t → commits_follow_delivery settings prev t.
Proof.
  intros Ht. revert prev. induction Ht as [|e t He Ht IH]; intros prev; [done|].
  split; [|apply IH]. by destruct e as [[] ? ?| |].
Qed.

Lemma cfd_lookup prev t i e :
  commits_follow_delivery settings prev t → t !! i = Some e →
  commit_ok settings (match i with O => prev | S j => t !! j end) e.
Proof.
  revert prev i. induction t as [|e' t IH]; intros prev i Ht Hi; [done|].
  destruct Ht as [He Ht]. destruct i as [|i]; simplify_eq/=; [done|].
  specialize (IH _ _ Ht Hi). by destruct i.
Qed.

Lemma loop_commits_follow_delivery fuel n lm aid σ prev :
  commits_follow_delivery settings prev
    (trace (loop env settings fuel n lm aid σ)).
Proof.
  revert n lm aid σ prev.
  induction fuel as [|fuel IH]; intros n lm aid σ prev; [done|].
  exec_loop. paths; split_and?; try done.
  all: try (eexists _, _; split_and!; [done|eassumption|done]).
  all: match goal with
  | E : loop _ _ _ ?n' ?lm' ?aid' ?σ' = _ |- commits_follow_delivery _ ?p _ =>
      specialize (IH n' lm' aid' σ' p); rewrite E in IH; exact IH
  end.
Qed.

(** A round whose batch is empty ends the loop before the delivery stage. *)
Lemma loop_empty_round fuel n lm aid σ :
  fails env (AtGetSql n) = false → fails env (AtQuery n) = false →
  construct_docs (source env n)
    (get_ids (source env n) (last_year_of (today env n)) lm
             (extractor_chunk_size settings)) = [] →
  loop env settings (S fuel) n lm aid σ =
  (Ok (), σ,
   [Logged NOTE "Extracting alerts for last_modified={{last_modified|datetime|quote}}, alert.id={{alert_id}}";
    Called (AtGetSql n) GetSql true;
    Called (AtQuery n)
      (SourceQuery (last_year_of (today env n)) lm
                   (extractor_chunk_size settings)) true]).
Proof. intros H1 H2 H3. exec_loop. by rewrite H1, H2, H3. Qed.

(** Whatever fails, a loop whose first batch is empty delivers and commits
    nothing. *)
Lemma loop_no_batch fuel n lm aid σ :
  construct_docs (source env n)
    (get_ids (source env n) (last_year_of (today env n)) lm
             (extractor_chunk_size settings)) = [] →
  store (loop env settings fuel n lm aid σ) = σ
  ∧ Forall (λ e, is_extend e = false ∧ is_commit e = false)
           (trace (loop env settings fuel n lm aid σ)).
Proof.
  intros Hd. destruct fuel as [|fuel]; [by split; [|constructor]|].
  exec_loop. rewrite Hd. simpl. paths; (split; [done|repeat constructor]).
Qed.

End Loop.

(** ** The prelude: state recovery and schema guard *)

Section Prelude.
Context `{Libs} (env : Env) (settings : Settings).



(** When the prelude hands over to the loop, the state is the recovered
    one, the fingerprint has been written, and a reset has been persisted. *)
Lemma prelude_ok force restart merge σ st σ1 t1 :
  prelude env settings force restart merge σ = (Ok st, σ1, t1) →
  recovered settings restart σ = Some st
  ∧ σ1 = <[extractor_sql settings := canonical_sql env]>
           (if resets settings restart σ
            then <[extractor_key settings := value2json zero_state]> σ
            else σ)
  ∧ (resets settings restart σ = true → zero_write settings ∈ t1).
Proof.
  unfold recovered, resets, zero_write. exec. paths; intros; simplify_eq.
  all: split_and!; try done; intros _; repeat constructor.
Qed.


End Prelude.

(** ** The whole invocation *)

(** Splits a goal about [extract] along its anatomy: configuration error,
    destination failure, and then the outcomes of the prelude and of the
    loop. *)
Ltac anatomy :=
  rewrite extract_run, guarded_run;
  destruct (negb (truthy (extractor_app_name _))) eqn:Happ;
  [|destruct (fails _ AtDestination) eqn:Hdest;
    [|destruct (prelude _ _ _ _ _ _) as [[[st|exn|] σ1] t1] eqn:Hpre;
      [destruct (loop _ _ _ _ _ _ _) as [[[[]|exn|] σ2] t2] eqn:Hloop| |]]];
  simpl.


Section Invocation.
Context `{Libs} (env : Env) (settings : Settings).

Lemma prelude_no_loop_event force restart merge σ :
  Forall (λ e, is_query e = false ∧ is_extend e = false ∧ is_commit e = false)
         (trace (prelude env settings force restart merge σ)).
Proof.
  eapply Forall_impl; [apply prelude_events|].
  intros [[] ? ?|[] ?|]; simpl; try done.
Qed.

Lemma finish_no_loop_event :
  Forall (λ e, is_query e = false ∧ is_extend e = false ∧ is_commit e = false)
         (finish_trace env).
Proof. unfold finish_trace. destruct (fails env AtFinalMerge); repeat constructor. Qed.

Lemma extract_commits_follow_delivery fuel force restart merge σ :
  commits_follow_delivery settings None
    (trace (extract env settings fuel force restart merge σ)).
Proof.
  pose proof (prelude_no_loop_event force restart merge σ) as Hp.
  pose proof finish_no_loop_event as Hf.
  assert (∀ t : list Event,
    Forall (λ e, is_query e = false ∧ is_extend e = false ∧ is_commit e = false) t →
    Forall (λ e, is_commit e = false) t) as Hc.
  { intros t Ht. eapply Forall_impl; [exact Ht|]. by intros ? (?&?&?). }
  anatomy; try done.
  all: simpl in Hp; split; [done|].
  all: try (pose proof (loop_commits_follow_delivery env settings fuel 0 st.1 st.2 σ1) as Hl;
    rewrite Hloop in Hl; simpl in Hl).
  all: repeat match goal with
    | |- commits_follow_delivery _ _ (_ ++ _) => rewrite cfd_app; split
    | Hl : ∀ prev, commits_follow_delivery _ prev ?t
      |- commits_follow_delivery _ _ ?t => apply Hl
    | |- _ => apply cfd_no_commit; first [by auto | by constructor; auto]
    end.
Qed.

End Invocation.

(** X18.  A loop commit only ever follows the completed delivery of the
    non-empty batch of the same round, and the value it persists is the
    serialised [(created, id)] of the last document of that delivered batch:
    in the trace of any invocation, whatever fails and however long the loop
    runs, the event just before a commit is the successful [extend] of that
    round.  This orders the calls; which rows the next window selects from
    the committed value is another matter, see the runs on which the cursor
    misbehaves. *)
Theorem commit_only_after_delivery `{Libs} env settings fuel force restart merge σ
    i n op ok :
  trace (extract env settings fuel force restart merge σ) !! i
    = Some (Called (AtCommit n) op ok) →
  ∃ j acc last_doc,
    i = S j
    ∧ trace (extract env settings fuel force restart merge σ) !! j
      = Some (Called (AtExtend n) (Extend acc) true)
    ∧ last acc = Some last_doc
    ∧ op = RedisSet (extractor_key settings)
             (value2json (doc_created last_doc, doc_id last_doc)).
Proof.
  intros Hi.
  pose proof (cfd_lookup settings None _ i _
                (extract_commits_follow_delivery env settings fuel force restart merge σ)
                Hi) as Hc.
  simpl in Hc. destruct Hc as (acc & d & Hprev & Hlast & Hop).
  destruct i as [|j]; [done|]. by exists j, acc, d.
Qed.

(** The first commit of the run over four rows: event 13, right after the
    delivery of the first page. *)
Lemma commit_only_after_delivery_witness :
  trace paged_run !! 13
    = Some (Called (AtCommit 0) (RedisSet "alerts.state" "[710, 2]") true)
  ∧ ∃ j acc last_doc,
      13 = S j
      ∧ trace paged_run !! j = Some (Called (AtExtend 0) (Extend acc) true)
      ∧ last acc = Some last_doc
      ∧ RedisSet "alerts.state" "[710, 2]"
        = RedisSet (extractor_key (config 2))
            (value2json (doc_created last_doc, doc_id last_doc)).
Proof.
  assert (trace paged_run !! 13
          = Some (Called (AtCommit 0) (RedisSet "alerts.state" "[710, 2]") true))
    as Hi by (vm_compute; reflexivity).
  split; [exact Hi|].
  exact (commit_only_after_delivery (world four_rows calm) (config 2) 9
           false false false ∅ 13 0 _ true Hi).
Defined.

(** ** The extraction query *)

Section Query.
Local Open Scope Z_scope.

Lemma insert_id_elem i l x : x ∈ insert_id i l ↔ x = i ∨ x ∈ l.
Proof.
  induction l as [|j l IH]; simpl.
  - rewrite list_elem_of_singleton, elem_of_nil. tauto.
  - destruct (Z.ltb_spec i j); [by rewrite elem_of_cons|].
    destruct (Z.eqb_spec i j) as [->|]; [rewrite elem_of_cons; tauto|].
    rewrite !elem_of_cons, IH. tauto.
Qed.

Lemma insert_id_sorted i l :
  StronglySorted Z.lt l → StronglySorted Z.lt (insert_id i l).
Proof.
  induction 1 as [|j l Hl IH Hj]; simpl.
  - repeat constructor.
  - destruct (Z.ltb_spec i j).
    + constructor; [by constructor|]. constructor; [done|].
      eapply Forall_impl; [exact Hj|]. intros; simpl in *; lia.
    + destruct (Z.eqb_spec i j); [by constructor|].
      constructor; [done|]. apply Forall_forall. intros x Hx.
      apply insert_id_elem in Hx as [->|Hx]; [lia|].
      by eapply Forall_forall in Hj.
Qed.

Lemma group_order_by_id_elem ids x : x ∈ group_order_by_id ids ↔ x ∈ ids.
Proof.
  induction ids as [|i ids IH]; simpl; [done|].
  rewrite insert_id_elem, elem_of_cons, IH. tauto.
Qed.

Lemma group_order_by_id_sorted ids : StronglySorted Z.lt (group_order_by_id ids).
Proof.
  induction ids as [|i ids IH]; simpl; [constructor|]. by apply insert_id_sorted.
Qed.

Lemma matching_nil db (s : Summary) a :
  filter (λ a, a_summary_id a = s_id s) (alerts db) = [] →
  a ∈ alerts db → a_summary_id a ≠ s_id s.
Proof.
  intros Hf Ha Heq.
  assert (a ∈ filter (λ a, a_summary_id a = s_id s) (alerts db)) as Hin
    by (by apply list_elem_of_filter).
  rewrite Hf in Hin. by apply elem_of_nil in Hin.
Qed.

Lemma matching_elem db (s : Summary) a :
  a ∈ filter (λ a, a_summary_id a = s_id s) (alerts db) ↔
  a ∈ alerts db ∧ a_summary_id a = s_id s.
Proof. rewrite list_elem_of_filter. tauto. Qed.

Lemma left_join_elem db s oa :
  (s, oa) ∈ left_join db ↔
  s ∈ summaries db
  ∧ match oa with
    | Some a => a ∈ alerts db ∧ a_summary_id a = s_id s
    | None => ∀ a, a ∈ alerts db → a_summary_id a ≠ s_id s
    end.
Proof.
  unfold left_join. rewrite list_elem_of_In, in_flat_map.
  setoid_rewrite <- list_elem_of_In. split.
  - intros (s' & Hs' & Hrow).
    destruct (filter (λ a, a_summary_id a = s_id s') (alerts db))
      as [|a0 m] eqn:Hf.
    + apply list_elem_of_singleton in Hrow. simplify_eq. split; [done|].
      intros a. by apply matching_nil.
    + apply list_elem_of_fmap in Hrow as (a & ? & Ha). simplify_eq.
      split; [done|]. rewrite <- Hf in Ha. by apply matching_elem in Ha.
  - intros [Hs Hoa]. exists s. split; [done|].
    destruct (filter (λ a, a_summary_id a = s_id s) (alerts db))
      as [|a0 m] eqn:Hf.
    + destruct oa as [a|]; [|by apply list_elem_of_singleton].
      destruct Hoa as [Ha Heq]. by destruct (matching_nil db s a Hf Ha).
    + assert (a0 ∈ alerts db ∧ a_summary_id a0 = s_id s) as [Ha0 Heq0].
      { apply matching_elem. rewrite Hf. left. }
      destruct oa as [a|]; [|by destruct (Hoa a0 Ha0)].
      apply list_elem_of_fmap. exists a. split; [done|].
      rewrite <- Hf. by apply matching_elem.
Qed.

Lemma left_join_total db s :
  s ∈ summaries db → ∃ oa, (s, oa) ∈ left_join db.
Proof.
  intros Hs. destruct (filter (λ a, a_summary_id a = s_id s) (alerts db))
    as [|a m] eqn:Hf.
  - exists None. apply left_join_elem. split; [done|]. intros a.
    by apply matching_nil.
  - exists (Some a). apply left_join_elem. split; [done|].
    apply matching_elem. rewrite Hf. left.
Qed.

Lemma selected_ids_elem db cutoff lm i :
  i ∈ selected_ids db cutoff lm ↔ eligible db cutoff lm i.
Proof.
  unfold selected_ids, eligible.
  rewrite group_order_by_id_elem, list_elem_of_fmap. split.
  - intros ([s oa] & -> & Hrow). apply list_elem_of_filter in Hrow as [Hw Hrow].
    apply left_join_elem in Hrow as [Hs Hoa]. exists s.
    unfold where_clause in Hw. simpl in *.
    apply Is_true_true, andb_true_iff in Hw as [Hc Hu].
    apply Z.ltb_lt in Hc. split_and!; [done..|].
    apply orb_true_iff in Hu as [Hu|Hu]; [left; by apply Z.ltb_lt|].
    destruct oa as [a|]; [|done]. right. exists a.
    destruct Hoa. split_and!; [done..|]. by apply Z.ltb_lt.
  - intros (s & Hs & <- & Hc & Hu).
    destruct Hu as [Hu|(a & Ha & Heq & Hu)].
    + destruct (left_join_total db s Hs) as [oa Hrow].
      exists (s, oa). split; [done|]. apply list_elem_of_filter. split; [|done].
      unfold where_clause. simpl. apply Is_true_true, andb_true_iff.
      split; [by apply Z.ltb_lt|]. apply orb_true_iff. left. by apply Z.ltb_lt.
    + exists (s, Some a). split; [done|]. apply list_elem_of_filter. split.
      * unfold where_clause. simpl. apply Is_true_true, andb_true_iff.
        split; [by apply Z.ltb_lt|]. apply orb_true_iff. right. by apply Z.ltb_lt.
      * by apply left_join_elem.
Qed.

Lemma take_sorted n (l : list Z) :
  StronglySorted Z.lt l → StronglySorted Z.lt (take n l).
Proof.
  intros Hl. revert n. induction Hl as [|x l Hl IH Hx]; intros [|n]; simpl;
    try constructor; [apply IH|].
  apply Forall_forall. intros y Hy. eapply Forall_forall in Hx; [done|].
  by eapply subseteq_take.
Qed.

(** An element a sorted list holds beyond a limit is greater than every
    element within the limit. *)
Lemma take_sorted_complete n (l : list Z) i :
  StronglySorted Z.lt l → i ∈ l →
  i ∈ take n l ∨ (length (take n l) = n ∧ ∀ j, j ∈ take n l → j < i).
Proof.
  intros Hl. revert n. induction Hl as [|x l Hl IH Hx]; intros n Hi.
  - by apply elem_of_nil in Hi.
  - destruct n as [|n]; simpl.
    + right. split; [done|]. intros j Hj. by apply elem_of_nil in Hj.
    + apply elem_of_cons in Hi as [->|Hi]; [left; left|].
      destruct (IH n Hi) as [Hin|[Hlen Hlt]]; [left; by right|].
      right. split; [by rewrite Hlen|]. intros j Hj.
      apply elem_of_cons in Hj as [->|Hj]; [|by apply Hlt].
      by eapply Forall_forall in Hx.
Qed.

Lemma sorted_NoDup (l : list Z) : StronglySorted Z.lt l → NoDup l.
Proof.
  induction 1 as [|x l Hl IH Hx]; constructor; [|done].
  intros Hin. eapply Forall_forall in Hx; [|done]. lia.
Qed.

End Query.

(** C8.  Every round of the loop issues the query for the window given by the
    retention cutoff [today - (YEAR - DAY)] (one year minus one day before
    today), the checkpoint's timestamp and the page size.  The identifiers it
    selects are those of summary rows created after the cutoff that were
    updated, or have a joined alert that was updated, after the checkpoint's
    timestamp; each identifier occurs once, they come in ascending order, at
    most [chunk_size] of them, and an eligible identifier is left out only
    when the page is full of smaller ones. *)
Theorem fetch_round_query `{Libs} env settings fuel n lm aid σ :
  (fails env (AtGetSql n) = false →
   ∃ t, trace (loop env settings (S fuel) n lm aid σ) =
        [Logged NOTE "Extracting alerts for last_modified={{last_modified|datetime|quote}}, alert.id={{alert_id}}";
         Called (AtGetSql n) GetSql true;
         Called (AtQuery n)
           (SourceQuery (today env n - (YEAR - DAY))%Z lm
                        (extractor_chunk_size settings))
           (negb (fails env (AtQuery n)))] ++ t)
  ∧ (fails env (AtQuery n) = false →
     fetch env settings n (today env n - (YEAR - DAY))%Z lm σ =
     (Ok (construct_docs (source env n)
            (get_ids (source env n) (today env n - (YEAR - DAY))%Z lm
                     (extractor_chunk_size settings))),
      σ,
      [Called (AtQuery n)
         (SourceQuery (today env n - (YEAR - DAY))%Z lm
                      (extractor_chunk_size settings)) true]))
  ∧ (∀ i, i ∈ get_ids (source env n) (today env n - (YEAR - DAY))%Z lm
                      (extractor_chunk_size settings) →
          eligible (source env n) (today env n - (YEAR - DAY))%Z lm i)
  ∧ StronglySorted Z.lt
      (get_ids (source env n) (today env n - (YEAR - DAY))%Z lm
               (extractor_chunk_size settings))
  ∧ NoDup (get_ids (source env n) (today env n - (YEAR - DAY))%Z lm
                   (extractor_chunk_size settings))
  ∧ length (get_ids (source env n) (today env n - (YEAR - DAY))%Z lm
                    (extractor_chunk_size settings))
    ≤ extractor_chunk_size settings
  ∧ (∀ i, eligible (source env n) (today env n - (YEAR - DAY))%Z lm i →
          i ∈ get_ids (source env n) (today env n - (YEAR - DAY))%Z lm
                      (extractor_chunk_size settings)
          ∨ (length (get_ids (source env n) (today env n - (YEAR - DAY))%Z lm
                             (extractor_chunk_size settings))
             = extractor_chunk_size settings
             ∧ ∀ j, j ∈ get_ids (source env n) (today env n - (YEAR - DAY))%Z lm
                                (extractor_chunk_size settings) → (j < i)%Z)).
Proof.
  assert (last_year_of (today env n) = (today env n - (YEAR - DAY))%Z) as Hc
    by (unfold last_year_of; lia).
  pose proof (group_order_by_id_sorted
    (s_id ∘ fst <$> filter (λ row, Is_true (where_clause
       (today env n - (YEAR - DAY))%Z lm row)) (left_join (source env n)))) as Hs.
  fold (selected_ids (source env n) (today env n - (YEAR - DAY))%Z lm) in Hs.
  unfold get_ids. split_and!.
  - intros Hg. exec_loop. rewrite Hg, Hc. simpl.
    destruct (fails env (AtQuery n)); simpl; [by eexists|].
    paths; by eexists.
  - intros Hq. exec. by rewrite Hq.
  - intros i Hi. apply selected_ids_elem. by eapply subseteq_take.
  - by apply take_sorted.
  - by apply sorted_NoDup, take_sorted.
  - rewrite length_take. lia.
  - intros i Hi. apply take_sorted_complete; [done|]. by apply selected_ids_elem.
Qed.

(** ** The final merge *)

Section FinalMerge.
Context `{Libs} (env : Env) (settings : Settings).

Lemma prelude_merge_first force restart merge σ :
  Forall (λ e, is_merge e = false)
         (drop 1 (trace (prelude env settings force restart merge σ)))
  ∧ (merge = false →
     Forall (λ e, is_merge e = false)
            (trace (prelude env settings force restart merge σ))).
Proof. exec. paths; (split; [|intros ?]); simplify_eq; repeat constructor. Qed.

Lemma prelude_merge force restart merge σ i e :
  trace (prelude env settings force restart merge σ) !! i = Some e →
  is_merge e = true → i = 0 ∧ merge = true.
Proof.
  destruct (prelude_merge_first force restart merge σ) as [Hd Hm].
  intros Hi He. destruct i as [|i].
  - split; [done|]. destruct merge; [done|].
    eapply Forall_lookup_1 in Hm; [|done..]. congruence.
  - rewrite <- (lookup_drop _ 1 i) in Hi.
    eapply Forall_lookup_1 in Hd; [|done]. congruence.
Qed.

Lemma guarded_merge fuel force restart merge σ i e :
  trace (guarded env settings fuel force restart merge σ) !! i = Some e →
  is_merge e = true → i = 0 ∧ merge = true.
Proof.
  rewrite guarded_run.
  pose proof (prelude_merge force restart merge σ i e) as Hp.
  destruct (prelude _ _ _ _ _ _) as [[[st|exn|] σ1] t1]; simpl in *; [|done..].
  pose proof (loop_events env settings fuel 0 st.1 st.2 σ1) as Hl.
  destruct (loop _ _ _ _ _ _ _) as [[r σ2] t2]; simpl in *.
  intros Hi He. destruct (decide (i < length t1)) as [Hlt|Hge].
  - rewrite lookup_app_l in Hi by done. auto.
  - rewrite lookup_app_r in Hi by lia.
    eapply Forall_lookup_1 in Hl; [|done].
    by destruct e as [[] [] ?|[] ?|].
Qed.

End FinalMerge.

(** C7.  Once the guarded block is left, by normal completion of the loop or
    by an exception caught as a problem with extraction, [extract] logs and
    then calls the destination's shard merge exactly once; only log lines
    follow it.  A merge that raises is caught and logged as a warning, and
    the invocation returns normally with the store the guarded block left,
    whatever the merge did.  Inside the guarded block the only merge is the
    one the operator asked for, and it is the first event, before the loop. *)
Theorem merge_once_after_loop `{Libs} env settings fuel force restart merge σ :
  truthy (extractor_app_name settings) = true →
  fails env AtDestination = false →
  result (guarded env settings fuel force restart merge σ) ≠ Diverge →
  extract env settings fuel force restart merge σ =
    (Ok (),
     store (guarded env settings fuel force restart merge σ),
     Called AtDestination GetOrCreateTable true
     :: trace (guarded env settings fuel force restart merge σ)
     ++ match result (guarded env settings fuel force restart merge σ) with
        | Raise _ => [Logged WARNING "problem with extraction"]
        | _ => []
        end
     ++ [Logged NOTE "done alert extraction";
         Called AtFinalMerge MergeShards (negb (fails env AtFinalMerge))]
     ++ (if fails env AtFinalMerge
         then [Logged WARNING "problem with merge"] else [])
     ++ [Logged NOTE "done alert merge"; LogStop])
  ∧ ∀ i e, trace (guarded env settings fuel force restart merge σ) !! i = Some e →
           is_merge e = true → i = 0 ∧ merge = true.
Proof.
  intros Happ Hdest Hdiv. split; [|apply guarded_merge].
  rewrite extract_run, Happ, Hdest. simpl. unfold finish_trace.
  destruct (guarded _ _ _ _ _ _ _) as [[[[]|exn|] σ1] t1]; simpl in *; done.
Qed.

(** The second delivery raises in the middle of the loop and the final merge
    raises too: the merge is still called once, last, and the invocation
    returns normally. *)
Lemma merge_once_after_loop_witness :
  truthy (extractor_app_name (config 2)) = true
  ∧ fails (world four_rows second_delivery_fails) AtDestination = false
  ∧ result (guarded (world four_rows second_delivery_fails) (config 2) 5
              false false true ∅) = Raise (Failure (AtExtend 1))
  ∧ result (extract (world four_rows second_delivery_fails) (config 2) 5
              false false true ∅) = Ok ()
  ∧ filter (λ e, is_merge e = true)
      (trace (extract (world four_rows second_delivery_fails) (config 2) 5
                false false true ∅))
    = [Called AtPreMerge MergeShards true; Called AtFinalMerge MergeShards false].
Proof.
  assert (result (guarded (world four_rows second_delivery_fails) (config 2) 5
                    false false true ∅) = Raise (Failure (AtExtend 1))) as Hr
    by (vm_compute; reflexivity).
  split_and!; [reflexivity|reflexivity|exact Hr| |].
  - destruct (merge_once_after_loop (world four_rows second_delivery_fails)
                (config 2) 5 false false true ∅) as [-> _];
      [reflexivity|reflexivity|by rewrite Hr|reflexivity].
  - destruct (merge_once_after_loop (world four_rows second_delivery_fails)
                (config 2) 5 false false true ∅) as [-> _];
      [reflexivity|reflexivity|by rewrite Hr|vm_compute; reflexivity].
Defined.

(** ** Invocations that find nothing to extract *)

Section NoRows.
Context `{Libs} (env : Env) (settings : Settings).

(** The prelude leaves the checkpoint key as it was, or reset. *)
Lemma prelude_store_key force restart merge σ :
  extractor_key settings ≠ extractor_sql settings →
  store (prelude env settings force restart merge σ) !! extractor_key settings
    = σ !! extractor_key settings
  ∨ (resets settings restart σ = true
     ∧ store (prelude env settings force restart merge σ) !! extractor_key settings
       = Some (value2json zero_state)).
Proof.
  intros Hk. unfold resets. exec. paths.
  all: rewrite ?(lookup_insert_ne _ (extractor_sql settings)) by done.
  all: rewrite ?lookup_insert_eq; auto.
Qed.

Lemma extract_no_rows fuel force restart merge σ :
  extractor_key settings ≠ extractor_sql settings →
  (∀ st, recovered settings restart σ = Some st →
         construct_docs (source env 0)
           (get_ids (source env 0) (last_year_of (today env 0)) st.1
                    (extractor_chunk_size settings)) = []) →
  Forall (λ e, is_extend e = false ∧ is_commit e = false)
         (trace (extract env settings fuel force restart merge σ))
  ∧ (store (extract env settings fuel force restart merge σ)
       !! extractor_key settings = σ !! extractor_key settings
     ∨ (resets settings restart σ = true
        ∧ store (extract env settings fuel force restart merge σ)
            !! extractor_key settings = Some (value2json zero_state))).
Proof.
  intros Hk Hrows.
  pose proof (prelude_store_key force restart merge σ Hk) as Hs.
  pose proof (prelude_no_loop_event env settings force restart merge σ) as Hp.
  pose proof (finish_no_loop_event env) as Hf.
  assert (∀ t : list Event,
    Forall (λ e, is_query e = false ∧ is_extend e = false ∧ is_commit e = false) t →
    Forall (λ e, is_extend e = false ∧ is_commit e = false) t) as Hc.
  { intros t Ht. eapply Forall_impl; [exact Ht|]. by intros ? (?&?&?). }
  anatomy; simpl in *.
  1,2: split; [repeat constructor|by left].
  1-3: apply prelude_ok in Hpre as (Hrec & _ & _);
       destruct (loop_no_batch env settings fuel 0 st.1 st.2 σ1 (Hrows st Hrec))
         as [Hst Htr];
       rewrite Hloop in Hst, Htr; simpl in Hst, Htr; subst σ2.
  all: split; [|done].
  all: constructor; [done|]; rewrite ?Forall_app; split_and?; auto.
  all: constructor; [done|]; auto.
Qed.

End NoRows.

(** C10.  A round whose fetched batch is empty ends the loop right after the
    query: nothing is delivered and the checkpoint key is not written in that
    round.  So an invocation whose first batch is empty, for the state it
    recovered, calls [extend] not once and commits nothing, whatever fails on
    the way, and the checkpoint key holds what it held before, or the zero
    state when lines 49-51 reset it. *)
Theorem empty_batch_exits_before_delivery `{Libs} env settings :
  (∀ fuel n lm aid σ,
     fails env (AtGetSql n) = false → fails env (AtQuery n) = false →
     construct_docs (source env n)
       (get_ids (source env n) (last_year_of (today env n)) lm
                (extractor_chunk_size settings)) = [] →
     loop env settings (S fuel) n lm aid σ =
     (Ok (), σ,
      [Logged NOTE "Extracting alerts for last_modified={{last_modified|datetime|quote}}, alert.id={{alert_id}}";
       Called (AtGetSql n) GetSql true;
       Called (AtQuery n)
         (SourceQuery (last_year_of (today env n)) lm
                      (extractor_chunk_size settings)) true]))
  ∧ (∀ fuel force restart merge σ,
       extractor_key settings ≠ extractor_sql settings →
       (∀ st, recovered settings restart σ = Some st →
              construct_docs (source env 0)
                (get_ids (source env 0) (last_year_of (today env 0)) st.1
                         (extractor_chunk_size settings)) = []) →
       Forall (λ e, is_extend e = false ∧ is_commit e = false)
              (trace (extract env settings fuel force restart merge σ))
       ∧ (store (extract env settings fuel force restart merge σ)
            !! extractor_key settings = σ !! extractor_key settings
          ∨ (resets settings restart σ = true
             ∧ store (extract env settings fuel force restart merge σ)
                 !! extractor_key settings = Some (value2json zero_state)))).
Proof.
  split.
  - intros. by apply loop_empty_round.
  - intros. by apply extract_no_rows.
Qed.

(** An empty source, a stored state and no restart: one query, no delivery,
    and the stored state stays. *)
Lemma empty_batch_exits_before_delivery_witness :
  deliveries (trace (extract (world no_rows calm) (config 2) 5 false false false
                       state_only)) = []
  ∧ commits (trace (extract (world no_rows calm) (config 2) 5 false false false
                      state_only)) = []
  ∧ queries (trace (extract (world no_rows calm) (config 2) 5 false false false
                      state_only)) = [(636%Z, 650%Z, 2)]
  ∧ (store (extract (world no_rows calm) (config 2) 5 false false false state_only)
       !! "alerts.state" = state_only !! "alerts.state"
     ∨ (resets (config 2) false state_only = true
        ∧ store (extract (world no_rows calm) (config 2) 5 false false false state_only)
            !! "alerts.state" = Some (value2json zero_state))).
Proof.
  split_and!; [vm_compute; reflexivity..|].
  destruct (empty_batch_exits_before_delivery (world no_rows calm) (config 2))
    as [_ Hinv].
  apply (Hinv 5 false false false state_only); [done|].
  intros st _. reflexivity.
Defined.

(** ** Reset of the state *)



Section Reset.
Context `{Libs} (env : Env) (settings : Settings).





End Reset.




(** The same run in detail: the invocation returns, the stored state stays,
    no query is issued, and both merges were called. *)
Lemma restart_not_reached_when_pre_merge_fails :
  result (extract (world four_rows pre_merge_fails) (config 2) 5 false true true
            state_only) = Ok ()
  ∧ store (extract (world four_rows pre_merge_fails) (config 2) 5 false true true
           state_only) !! "alerts.state" = Some "[650, 7]"
  ∧ queries (trace (extract (world four_rows pre_merge_fails) (config 2) 5
                      false true true state_only)) = []
  ∧ filter (λ e, is_merge e = true)
      (trace (extract (world four_rows pre_merge_fails) (config 2) 5
                false true true state_only))
    = [Called AtPreMerge MergeShards false; Called AtFinalMerge MergeShards true].
Proof. vm_compute. by split_and!. Qed.

(** ** A forced run over a drifted schema *)

Section Forced.
Context `{Libs} (env : Env) (settings : Settings).

(** The loop writes the checkpoint key only. *)
Lemma loop_store_other fuel n lm aid σ k :
  k ≠ extractor_key settings →
  store (loop env settings fuel n lm aid σ) !! k = σ !! k.
Proof.
  intros Hk. revert n lm aid σ.
  induction fuel as [|fuel IH]; intros n lm aid σ; [done|].
  exec_loop. paths; rewrite ?lookup_insert_ne by done; try done.
  match goal with
  | E : loop _ _ _ ?n' ?lm' ?aid' ?σ' = _ |- _ =>
      specialize (IH n' lm' aid' σ'); rewrite E in IH; simpl in IH;
      by rewrite IH, lookup_insert_ne
  end.
Qed.




End Forced.

Section ForcedRound.
Context `{Libs} (env : Env) (settings : Settings).


End ForcedRound.




(** ** Schema drift without [force] *)




(** ** Runs on which the cursor misbehaves

    The loop persists [created] of the last document as the timestamp of
    the checkpoint, never uses [alert_id] in the query, and then filters on
    [last_updated] while ordering by [id]. *)

(** C1.  The checkpoint is advanced past a row that was never delivered.
    Three rows created and last updated on the same day are all eligible
    from the zero state; with two to a page the first round delivers rows 1
    and 2 and commits (700, 2); the next window asks for rows updated after
    day 700 and is empty, so the run ends without delivering row 3.  A second
    run from the store the first one left queries the same empty window,
    delivers nothing and leaves the checkpoint where it is. *)
Theorem checkpoint_passes_undelivered_row :
  selected_ids tied_rows (last_year_of 1000%Z) 0%Z = [1; 2; 3]%Z
  ∧ result tied_run = Ok ()
  ∧ queries (trace tied_run) = [(636%Z, 0%Z, 2); (636%Z, 700%Z, 2)]
  ∧ map (map doc_id) (deliveries (trace tied_run)) = [[1; 2]]%Z
  ∧ json2value <$> commits (trace tied_run) = [Some (700, 2)]%Z
  ∧ store tied_run !! "alerts.state" = Some "[700, 2]"
  ∧ selected_ids tied_rows (last_year_of 1000%Z) 700%Z = []
  ∧ result tied_rerun = Ok ()
  ∧ queries (trace tied_rerun) = [(636%Z, 700%Z, 2)]
  ∧ deliveries (trace tied_rerun) = []
  ∧ store tied_rerun !! "alerts.state" = Some "[700, 2]".
Proof. vm_compute. by split_and!. Qed.

(** C3.  Over the four rows, two to a page, the run commits (710, 2),
    (720, 3), (730, 4) and then (700, 1): the last commit is below the one
    before it. *)
Theorem checkpoint_regresses_within_run :
  result paged_run = Ok ()
  ∧ json2value <$> commits (trace paged_run)
    = [Some (710, 2); Some (720, 3); Some (730, 4); Some (700, 1)]%Z
  ∧ state_le (730, 4)%Z (700, 1)%Z = false
  ∧ store paged_run !! "alerts.state" = Some "[700, 1]".
Proof. vm_compute. by split_and!. Qed.

(** C4.  A first run over one row that was updated after its creation ends
    with the checkpoint (700, 1); a second run over the unchanged source
    fetches and delivers that row again. *)
Theorem second_run_delivers_again :
  result first_run = Ok ()
  ∧ store first_run !! "alerts.state" = Some "[700, 1]"
  ∧ result second_run = Ok ()
  ∧ queries (trace second_run) = [(636%Z, 700%Z, 2)]
  ∧ map (map doc_id) (deliveries (trace second_run)) = [[1%Z]]
  ∧ store second_run !! "alerts.state" = Some "[700, 1]".
Proof. vm_compute. by split_and!. Qed.

(** C6.  With a page size of 2 and exactly 4 eligible rows the loop makes
    four fetch rounds and four deliveries, of 2, 2, 2 and 1 documents,
    instead of the rounds 2, 2, 0. *)
Theorem four_rows_take_four_rounds :
  selected_ids four_rows (last_year_of 1000%Z) 0%Z = [1; 2; 3; 4]%Z
  ∧ result paged_run = Ok ()
  ∧ queries (trace paged_run)
    = [(636%Z, 0%Z, 2); (636%Z, 710%Z, 2); (636%Z, 720%Z, 2); (636%Z, 730%Z, 2)]
  ∧ map (map doc_id) (deliveries (trace paged_run))
    = [[1; 2]; [1; 3]; [1; 4]; [1]]%Z.
Proof. vm_compute. by split_and!. Qed.

(** With a page of one document and two eligible rows, the first of which
    was updated after its creation, every round after the first fetches the
    first row again: the loop never ends. *)
Lemma stuck_page fuel n σ :
  result (loop (world two_rows calm) (config 1) fuel n 700%Z 1%Z σ) = Diverge.
Proof.
  revert n σ. induction fuel as [|fuel IH]; intros n σ; [done|].
  exec_loop.
  match goal with |- context [loop ?e ?s fuel ?n' ?lm ?aid ?σ'] =>
    specialize (IH n' σ'); destruct (loop e s fuel n' lm aid σ') as [[r σ2] t2] end.
  simpl in *. by subst r.
Qed.

Lemma page_of_one_never_ends fuel :
  selected_ids two_rows (last_year_of 1000%Z) 0%Z = [1; 2]%Z
  ∧ result (extract (world two_rows calm) (config 1) fuel false false false ∅)
    = Diverge.
Proof.
  split; [vm_compute; reflexivity|].
  rewrite extract_run, guarded_run. simpl.
  assert (result (prelude (world two_rows calm) (config 1) false false false ∅)
          = Ok zero_state) as Hp by (vm_compute; reflexivity).
  destruct (prelude _ _ _ _ _ _) as [[[st|exn|] σ1] t1]; simplify_eq/=.
  destruct fuel as [|fuel]; [done|].
  exec_loop.
  match goal with |- context [loop ?e ?s fuel ?n' ?lm ?aid ?σ'] =>
    pose proof (stuck_page fuel n' σ') as Hs;
    destruct (loop e s fuel n' lm aid σ') as [[r σ2] t2] end.
  simpl in *. by subst r.
Qed.

(** A round whose batch is shorter than the page delivers it, commits and
    ends the loop. *)
Lemma short_batch_single_round `{Libs} env settings fuel n lm aid σ d ds last_doc :
  fails env (AtGetSql n) = false → fails env (AtQuery n) = false →
  fails env (AtExtend n) = false → fails env (AtCommit n) = false →
  construct_docs (source env n)
    (get_ids (source env n) (last_year_of (today env n)) lm
             (extractor_chunk_size settings)) = d :: ds →
  last (stamp env n (d :: ds)) = Some last_doc →
  S (length ds) < extractor_chunk_size settings →
  loop env settings (S fuel) n lm aid σ =
  (Ok (),
   <[extractor_key settings :=
       value2json (doc_created last_doc, doc_id last_doc)]> σ,
   [Logged NOTE "Extracting alerts for last_modified={{last_modified|datetime|quote}}, alert.id={{alert_id}}";
    Called (AtGetSql n) GetSql true;
    Called (AtQuery n)
      (SourceQuery (last_year_of (today env n)) lm
                   (extractor_chunk_size settings)) true;
    Called (AtExtend n) (Extend (stamp env n (d :: ds))) true;
    Called (AtCommit n)
      (RedisSet (extractor_key settings)
         (value2json (doc_created last_doc, doc_id last_doc)))
      true]).
Proof.
  intros Hg Hq He Hc Hd Hl Hlen. exec_loop. rewrite Hg, Hq. simpl. rewrite Hd, He.
  simpl in *. rewrite Hl, Hc. simpl.
  apply Nat.ltb_lt in Hlen. by rewrite length_imap, Hlen.
Qed.

(** * Further properties of the extraction routine *)

(** ** Which failures reach the caller *)

(** X1.  [extract] lets an exception through to its caller in two cases only:
    the job identity is missing from the configuration, or the destination
    table cannot be set up.  It has then called nothing else: the store is
    untouched, and nothing was merged, read or delivered.  Every other
    failure (merge, store, schema scan, drift, source, delivery) is caught
    inside. *)
Theorem extract_raises_only_on_setup `{Libs} env settings fuel force restart merge σ :
  ((∃ e, result (extract env settings fuel force restart merge σ) = Raise e)
   ↔ truthy (extractor_app_name settings) = false
     ∨ fails env AtDestination = true)
  ∧ ((∃ e, result (extract env settings fuel force restart merge σ) = Raise e) →
     store (extract env settings fuel force restart merge σ) = σ
     ∧ (trace (extract env settings fuel force restart merge σ)
          = [Logged ERROR "Expecting an extractor.app_name in config file"]
        ∨ trace (extract env settings fuel force restart merge σ)
          = [Called AtDestination GetOrCreateTable false])).
Proof.
  rewrite extract_run.
  destruct (truthy (extractor_app_name settings)) eqn:Happ; simpl.
  - destruct (fails env AtDestination) eqn:Hdest; simpl.
    + split; [split; [by right|by eexists]|]. intros _. split; [done|by right].
    + destruct (guarded _ _ _ _ _ _ _) as [[[[]|exn|] σ1] t1]; simpl.
      all: split; [split|]; intros H0; destruct_or?; try done.
      all: by destruct H0.
  - split; [split; [by left|by eexists]|]. intros _. split; [done|by left].
Qed.

(** ** How often the shards are merged *)

Section Merges.
Context `{Libs} (env : Env) (settings : Settings).

Lemma count_events_app P t1 t2 :
  count_events P (t1 ++ t2) = count_events P t1 + count_events P t2.
Proof. unfold count_events. by rewrite List.filter_app, length_app. Qed.

Lemma count_events_none (P Q : Event → bool) t :
  (∀ e, Q e = true → P e = false) →
  Forall (λ e, Q e = true) t → count_events P t = 0.
Proof.
  intros HPQ Ht. unfold count_events.
  induction Ht as [|e t He Ht IH]; simpl; [done|]. by rewrite (HPQ e He).
Qed.

Lemma prelude_merge_count force restart merge σ :
  count_events is_merge (trace (prelude env settings force restart merge σ))
  = if merge then 1 else 0.
Proof. unfold count_events. exec. by paths. Qed.

Lemma loop_merge_count fuel n lm aid σ :
  count_events is_merge (trace (loop env settings fuel n lm aid σ)) = 0.
Proof.
  apply (count_events_none _ in_loop); [|apply loop_events].
  by intros [[] [] ?|[] ?|].
Qed.

Lemma finish_merge_count : count_events is_merge (finish_trace env) = 1.
Proof. unfold finish_trace, count_events. by destruct (fails env AtFinalMerge). Qed.

End Merges.

(** X2.  An invocation that gets past its setup and ends calls the
    destination's shard merge once, or twice when the operator asked for the
    extra merge, whatever else fails on the way. *)
Theorem merge_calls_count `{Libs} env settings fuel force restart merge σ :
  truthy (extractor_app_name settings) = true →
  fails env AtDestination = false →
  result (extract env settings fuel force restart merge σ) ≠ Diverge →
  count_events is_merge (trace (extract env settings fuel force restart merge σ))
  = if merge then 2 else 1.
Proof.
  intros Happ Hdest. rewrite extract_run, guarded_run, Happ, Hdest. simpl.
  pose proof (prelude_merge_count env settings force restart merge σ) as Hp.
  pose proof (finish_merge_count env) as Hf.
  destruct (prelude _ _ _ _ _ _) as [[[st|exn|] σ1] t1]; simpl in *.
  - pose proof (loop_merge_count env settings fuel 0 st.1 st.2 σ1) as Hl.
    destruct (loop _ _ _ _ _ _ _) as [[[[]|exn|] σ2] t2]; simpl in *; intros Hr;
      try done.
    all: change (Called AtDestination GetOrCreateTable true :: ?t)
           with ([Called AtDestination GetOrCreateTable true] ++ t).
    all: change (Logged WARNING "problem with extraction" :: ?t)
           with ([Logged WARNING "problem with extraction"] ++ t).
    all: rewrite !count_events_app, Hp, Hl, Hf; by destruct merge.
  - intros _.
    change (Called AtDestination GetOrCreateTable true :: ?t)
      with ([Called AtDestination GetOrCreateTable true] ++ t).
    change (Logged WARNING "problem with extraction" :: ?t)
      with ([Logged WARNING "problem with extraction"] ++ t).
    rewrite !count_events_app, Hp, Hf. by destruct merge.
  - done.
Qed.

(** The operator asks for the extra merge, the second delivery and the final
    merge raise: two merge calls. *)
Lemma merge_calls_count_witness :
  truthy (extractor_app_name (config 2)) = true
  ∧ fails (world four_rows second_delivery_fails) AtDestination = false
  ∧ result (extract (world four_rows second_delivery_fails) (config 2) 5
              false false true ∅) ≠ Diverge
  ∧ count_events is_merge
      (trace (extract (world four_rows second_delivery_fails) (config 2) 5
                false false true ∅)) = 2.
Proof.
  assert (result (extract (world four_rows second_delivery_fails) (config 2) 5
                    false false true ∅) ≠ Diverge) as Hr
    by (vm_compute; discriminate).
  split_and!; [reflexivity|reflexivity|exact Hr|].
  exact (merge_calls_count (world four_rows second_delivery_fails) (config 2) 5
           false false true ∅ eq_refl eq_refl Hr).
Defined.

(** ** The schema guard without drift *)

Section NoDrift.
Context `{Libs} (env : Env) (settings : Settings).

(** The fingerprint the guard will read does not differ from the current
    query: none is stored, it is empty, or it is the same text. *)
Lemma prelude_force_irrelevant restart merge σ :
  extractor_key settings ≠ extractor_sql settings →
  schema_changed (σ !! extractor_sql settings) (canonical_sql env) = false →
  prelude env settings true restart merge σ
  = prelude env settings false restart merge σ
  ∧ Forall (λ e, is_drift_error e = false
                 ∧ e ≠ Logged WARNING "Schema has changed")
           (trace (prelude env settings false restart merge σ)).
Proof.
  intros Hk Hs.
  assert (∀ v, schema_changed
                 (<[extractor_key settings := v]> σ !! extractor_sql settings)
                 (canonical_sql env) = false) as Hs'
    by (intros v; by rewrite lookup_insert_ne).
  exec. paths; try congruence; try (by rewrite Hs' in *).
  all: split; [done|]; repeat constructor; done.
Qed.

End NoDrift.

Lemma not_drifted_test `{Libs} env settings σ :
  ¬ drifted env settings σ →
  schema_changed (σ !! extractor_sql settings) (canonical_sql env) = false.
Proof.
  intros Hn. unfold schema_changed.
  destruct (σ !! extractor_sql settings) as [old|] eqn:Ho; simpl; [|done].
  destruct (String.eqb_spec old ""); simpl; [done|].
  destruct (String.eqb_spec old (canonical_sql env)); simpl; [done|].
  destruct Hn. by exists old.
Qed.

(** X3.  [force] only matters under drift.  When no fingerprint is stored, or
    an empty one, or the text of the current query, an invocation with
    [force] and one without do exactly the same: same result, same store,
    same trace; and neither logs that the schema has changed. *)
Theorem force_only_matters_under_drift `{Libs} env settings fuel restart merge σ :
  extractor_key settings ≠ extractor_sql settings →
  ¬ drifted env settings σ →
  extract env settings fuel true restart merge σ
  = extract env settings fuel false restart merge σ
  ∧ Forall (λ e, is_drift_error e = false
                 ∧ e ≠ Logged WARNING "Schema has changed")
           (trace (extract env settings fuel false restart merge σ)).
Proof.
  intros Hk Hd. apply not_drifted_test in Hd.
  destruct (prelude_force_irrelevant env settings restart merge σ Hk Hd)
    as [Heq Hfor].
  rewrite !extract_run, !guarded_run, Heq. split; [done|]. clear Heq.
  assert (Forall (λ e, is_drift_error e = false
                       ∧ e ≠ Logged WARNING "Schema has changed")
                 (finish_trace env)) as Hfin.
  { unfold finish_trace. destruct (fails env AtFinalMerge); repeat constructor; done. }
  assert (∀ fuel n lm aid σ',
    Forall (λ e, is_drift_error e = false
                 ∧ e ≠ Logged WARNING "Schema has changed")
           (trace (loop env settings fuel n lm aid σ'))) as Hloop.
  { intros. eapply Forall_impl; [apply loop_events|].
    by intros [[] [] ?|[] ?|]. }
  destruct (negb (truthy (extractor_app_name settings))); [repeat constructor; done|].
  destruct (fails env AtDestination); [repeat constructor; done|].
  destruct (prelude env settings false restart merge σ)
    as [[[st|exn|] σ1] t1]; simpl in *.
  - specialize (Hloop fuel 0 st.1 st.2 σ1).
    destruct (loop _ _ _ _ _ _ _) as [[[[]|exn|] σ2] t2]; simpl in *.
    all: constructor; [done|]; rewrite ?Forall_app; split_and?; try done.
    constructor; done.
  - constructor; [done|]. apply Forall_app. split; [done|]. constructor; done.
  - by constructor.
Qed.

(** A first run: nothing is stored, so nothing can have drifted. *)
Lemma force_only_matters_under_drift_witness :
  extractor_key (config 2) ≠ extractor_sql (config 2)
  ∧ ¬ drifted (world four_rows calm) (config 2) ∅
  ∧ extract (world four_rows calm) (config 2) 9 true false false ∅
    = extract (world four_rows calm) (config 2) 9 false false false ∅.
Proof.
  assert (extractor_key (config 2) ≠ extractor_sql (config 2)) as Hk by done.
  assert (¬ drifted (world four_rows calm) (config 2) ∅) as Hd.
  { intros (old & Ho & _). by rewrite lookup_empty in Ho. }
  split_and!; [done..|].
  apply (force_only_matters_under_drift (world four_rows calm) (config 2) 9
           false false ∅ Hk Hd).
Defined.

(** ** What an invocation leaves in the store *)

Section StoreAfter.
Context `{Libs} (env : Env) (settings : Settings).

Lemma prelude_store_other force restart merge σ k :
  k ≠ extractor_key settings → k ≠ extractor_sql settings →
  store (prelude env settings force restart merge σ) !! k = σ !! k.
Proof.
  intros Hk Hs. exec. paths; by rewrite ?lookup_insert_ne.
Qed.

Lemma commits_app t1 t2 : commits (t1 ++ t2) = commits t1 ++ commits t2.
Proof. unfold commits. apply omap_app. Qed.

Lemma commits_none (Q : Event → bool) t :
  (∀ e, Q e = true → is_commit e = false) →
  Forall (λ e, Q e = true) t → commits t = [].
Proof.
  intros HQ Ht. induction Ht as [|e t He Ht IH]; [done|].
  specialize (HQ e He). change (e :: t) with ([e] ++ t).
  rewrite commits_app, IH. by destruct e as [[] ? ?| |].
Qed.

Lemma existsb_none (P Q : Event → bool) t :
  (∀ e, Q e = true → P e = false) →
  Forall (λ e, Q e = true) t → existsb P t = false.
Proof.
  intros HPQ Ht. induction Ht as [|e t He Ht IH]; simpl; [done|].
  by rewrite (HPQ e He).
Qed.

(** After the loop the key holds the last committed value, or what it held. *)
Lemma loop_checkpoint fuel n lm aid σ :
  store (loop env settings fuel n lm aid σ) !! extractor_key settings
  = match last (commits (trace (loop env settings fuel n lm aid σ))) with
    | Some v => Some v
    | None => σ !! extractor_key settings
    end.
Proof.
  revert n lm aid σ. induction fuel as [|fuel IH]; intros n lm aid σ; [done|].
  exec_loop. paths; try done.
  all: try match goal with
    | E : loop _ _ _ ?n' ?lm' ?aid' ?σ' = _ |- _ =>
        specialize (IH n' lm' aid' σ'); rewrite E in IH; simpl in IH; rewrite IH
    end.
  all: rewrite ?lookup_insert_eq; try done.
  all: match goal with
    | Hl : last (_ :: commits ?l) = _ |- _ =>
        destruct (commits l) as [|v vs];
        [|rewrite last_cons in Hl; destruct (last (v :: vs))]
    end; by simplify_eq/=.
Qed.

Lemma prelude_checkpoint force restart merge σ :
  extractor_key settings ≠ extractor_sql settings →
  store (prelude env settings force restart merge σ) !! extractor_key settings
  = if existsb is_zero_write (trace (prelude env settings force restart merge σ))
    then Some (value2json zero_state) else σ !! extractor_key settings.
Proof.
  intros Hk. exec. paths.
  all: rewrite ?(lookup_insert_ne _ (extractor_sql settings)) by done.
  all: by rewrite ?lookup_insert_eq.
Qed.

End StoreAfter.

(** X4.  An invocation writes under the checkpoint key and the fingerprint
    key and nowhere else: every other key of the store keeps its value,
    whatever happens. *)
Theorem extract_writes_two_keys_only `{Libs} env settings fuel force restart merge
    σ k :
  k ≠ extractor_key settings → k ≠ extractor_sql settings →
  store (extract env settings fuel force restart merge σ) !! k = σ !! k.
Proof.
  intros Hk Hs. rewrite extract_run, guarded_run.
  pose proof (prelude_store_other env settings force restart merge σ k Hk Hs) as Hp.
  destruct (negb (truthy (extractor_app_name settings))); [done|].
  destruct (fails env AtDestination); [done|].
  destruct (prelude _ _ _ _ _ _) as [[[st|exn|] σ1] t1]; simpl in *; [|done..].
  pose proof (loop_store_other env settings fuel 0 st.1 st.2 σ1 k Hk) as Hl.
  destruct (loop _ _ _ _ _ _ _) as [[[[]|exn|] σ2] t2]; simpl in *; congruence.
Qed.

(** Another job's state in the same store survives a run with [restart]. *)
Lemma extract_writes_two_keys_only_witness :
  "jobs.state" ≠ extractor_key (config 2)
  ∧ "jobs.state" ≠ extractor_sql (config 2)
  ∧ store (extract (world four_rows calm) (config 2) 9 false true false
             (<["jobs.state" := "[5, 5]"]> old_store)) !! "jobs.state"
    = Some "[5, 5]".
Proof.
  split_and!; [done..|].
  rewrite (extract_writes_two_keys_only (world four_rows calm) (config 2) 9
             false true false (<["jobs.state" := "[5, 5]"]> old_store)
             "jobs.state") by done.
  reflexivity.
Defined.

(** X5.  The checkpoint an invocation leaves is the last value its loop
    committed; when the loop committed nothing it is the zero state if the
    reset was written, and the value stored before otherwise. *)
Theorem checkpoint_after_invocation `{Libs} env settings fuel force restart merge σ :
  extractor_key settings ≠ extractor_sql settings →
  store (extract env settings fuel force restart merge σ) !! extractor_key settings
  = checkpoint_after (value2json zero_state) (σ !! extractor_key settings)
      (trace (extract env settings fuel force restart merge σ)).
Proof.
  intros Hk. rewrite extract_run, guarded_run. unfold checkpoint_after, finish_trace.
  pose proof (prelude_checkpoint env settings force restart merge σ Hk) as Hp.
  pose proof (commits_none in_prelude _ ltac:(by intros [[] [] ?|[] ?|])
                (prelude_events env settings force restart merge σ)) as Hpc.
  destruct (negb (truthy (extractor_app_name settings))); [done|].
  destruct (fails env AtDestination); [done|].
  destruct (fails env AtFinalMerge); simpl.
  all: destruct (prelude _ _ _ _ _ _) as [[[st|exn|] σ1] t1]; simpl in *.
  all: try (pose proof (loop_checkpoint env settings fuel 0 st.1 st.2 σ1) as Hl;
            pose proof (existsb_none is_zero_write in_loop _
                          ltac:(by intros [[] [] ?|[] ?|])
                          (loop_events env settings fuel 0 st.1 st.2 σ1)) as Hlz;
            destruct (loop _ _ _ _ _ _ _) as [[[[]|exn|] σ2] t2]; simpl in *).
  all: change (Called AtDestination GetOrCreateTable true :: ?t)
         with ([Called AtDestination GetOrCreateTable true] ++ t).
  all: rewrite ?commits_app, ?existsb_app, Hpc, ?Hlz, ?Hl, Hp.
  all: simpl; rewrite ?app_nil_r, ?orb_false_r; done.
Qed.

(** The second delivery raises: the checkpoint left is the commit of the
    first page. *)
Lemma checkpoint_after_invocation_witness :
  extractor_key (config 2) ≠ extractor_sql (config 2)
  ∧ commits (trace (extract (world four_rows second_delivery_fails) (config 2) 5
                      false false true state_only)) = ["[710, 2]"]
  ∧ store (extract (world four_rows second_delivery_fails) (config 2) 5
             false false true state_only) !! "alerts.state" = Some "[710, 2]".
Proof.
  assert (commits (trace (extract (world four_rows second_delivery_fails)
                            (config 2) 5 false false true state_only))
          = ["[710, 2]"]) as Hc by (vm_compute; reflexivity).
  split_and!; [done|exact Hc|].
  change "alerts.state" with (extractor_key (config 2)).
  rewrite (checkpoint_after_invocation (world four_rows second_delivery_fails)
             (config 2) 5 false false true state_only) by done.
  unfold checkpoint_after. by rewrite Hc.
Defined.

(** ** What is delivered *)

Section Delivered.
Context `{Libs} (env : Env) (settings : Settings).

Lemma dfq_app prev t1 t2 :
  deliveries_follow_query env settings prev (t1 ++ t2)
  ↔ deliveries_follow_query env settings prev t1
    ∧ deliveries_follow_query env settings (last_event prev t1) t2.
Proof.
  revert prev. induction t1 as [|e t1 IH]; intros prev; simpl.
  - unfold last_event; simpl. tauto.
  - rewrite IH. unfold last_event. destruct t1 as [|e' t1]; [simpl; tauto|].
    rewrite last_cons_cons.
    destruct (last (e' :: t1)) eqn:El; [tauto|]. by apply last_None in El.
Qed.

Lemma dfq_no_extend prev t :
  Forall (λ e, is_extend e = false) t →
  deliveries_follow_query env settings prev t.
Proof.
  intros Ht. revert prev. induction Ht as [|e t He Ht IH]; intros prev; [done|].
  split; [|apply IH]. by destruct e as [[] ? ?| |].
Qed.

Lemma dfq_lookup prev t i e :
  deliveries_follow_query env settings prev t → t !! i = Some e →
  delivery_ok env settings (match i with O => prev | S j => t !! j end) e.
Proof.
  revert prev i. induction t as [|e' t IH]; intros prev i Ht Hi; [done|].
  destruct Ht as [He Ht]. destruct i as [|i]; simplify_eq/=; [done|].
  specialize (IH _ _ Ht Hi). by destruct i.
Qed.

(** In the loop every call of [extend] comes right after the completed
    query of its round and carries the documents of that query. *)
Lemma loop_deliveries fuel n lm aid σ prev :
  deliveries_follow_query env settings prev
    (trace (loop env settings fuel n lm aid σ)).
Proof.
  revert n lm aid σ prev.
  induction fuel as [|fuel IH]; intros n lm aid σ prev; [done|].
  exec_loop. paths; split_and?; try done.
  all: try (eexists _, _, _; split_and!; [done|eassumption|done]).
  all: match goal with
  | E : loop _ _ _ ?n' ?lm' ?aid' ?σ' = _
    |- deliveries_follow_query _ _ ?p _ =>
      specialize (IH n' lm' aid' σ' p); rewrite E in IH; exact IH
  end.
Qed.

Lemma extract_deliveries_follow_query fuel force restart merge σ :
  deliveries_follow_query env settings None
    (trace (extract env settings fuel force restart merge σ)).
Proof.
  pose proof (prelude_no_loop_event env settings force restart merge σ) as Hp.
  pose proof (finish_no_loop_event env) as Hf.
  assert (∀ t : list Event,
    Forall (λ e, is_query e = false ∧ is_extend e = false ∧ is_commit e = false) t →
    Forall (λ e, is_extend e = false) t) as Hc.
  { intros t Ht. eapply Forall_impl; [exact Ht|]. by intros ? (?&?&?). }
  anatomy; try done.
  all: simpl in Hp; split; [done|].
  all: try (pose proof (loop_deliveries fuel 0 st.1 st.2 σ1) as Hl;
    rewrite Hloop in Hl; simpl in Hl).
  all: repeat match goal with
    | |- deliveries_follow_query _ _ _ (_ ++ _) => rewrite dfq_app; split
    | Hl : ∀ prev, deliveries_follow_query _ _ prev ?t
      |- deliveries_follow_query _ _ _ ?t => apply Hl
    | |- _ => apply dfq_no_extend; first [by auto | by constructor; auto]
    end.
Qed.

Lemma stamp_length n acc : length (stamp env n acc) = length acc.
Proof. unfold stamp. apply length_imap. Qed.

Lemma stamp_lookup n acc k d :
  stamp env n acc !! k = Some d →
  ∃ r, acc !! k = Some r ∧ doc_id d = doc_id r ∧ doc_created d = doc_created r
       ∧ etl_timestamp d = Some (now env n k).
Proof.
  unfold stamp. rewrite list_lookup_imap.
  destruct (acc !! k) as [r|]; intros; simplify_eq/=. by exists r.
Qed.

End Delivered.

(** X6.  Whatever an invocation hands to [extend] is the batch its round
    fetched: in the trace the call of [extend] in round [n] comes right
    after the completed query of round [n], and its argument is the list of
    documents of exactly that query (that round's cutoff, the timestamp the
    query was issued with, the page size), not empty, in the same order and
    stamped: each delivered document keeps the [id] and [created] of the
    fetched one and carries the extraction time stamped on it in that
    round. *)
Theorem delivered_batches_are_stamped `{Libs} env settings fuel force restart merge σ
    i n op ok :
  trace (extract env settings fuel force restart merge σ) !! i
    = Some (Called (AtExtend n) op ok) →
  ∃ j lm batch,
    i = S j
    ∧ trace (extract env settings fuel force restart merge σ) !! j
      = Some (Called (AtQuery n)
                (SourceQuery (last_year_of (today env n)) lm
                             (extractor_chunk_size settings)) true)
    ∧ batch = construct_docs (source env n)
                (get_ids (source env n) (last_year_of (today env n)) lm
                         (extractor_chunk_size settings))
    ∧ batch ≠ []
    ∧ op = Extend (stamp env n batch)
    ∧ length (stamp env n batch) = length batch
    ∧ ∀ k d, stamp env n batch !! k = Some d →
        ∃ r, batch !! k = Some r
             ∧ doc_id d = doc_id r ∧ doc_created d = doc_created r
             ∧ etl_timestamp d = Some (now env n k).
Proof.
  intros Hi.
  pose proof (dfq_lookup env settings None _ i _
                (extract_deliveries_follow_query env settings fuel force restart
                   merge σ) Hi) as Hd.
  simpl in Hd. destruct Hd as (lm & d & ds & Hprev & Hdocs & Hop).
  destruct i as [|j]; [done|].
  exists j, lm, (d :: ds). rewrite Hdocs.
  split_and!; [done..|apply stamp_length|].
  intros k d' Hk. by apply stamp_lookup in Hk.
Qed.

(** The first page of the run over four rows: event 12, right after the
    query of round 0 from the zero state. *)
Lemma delivered_batches_are_stamped_witness :
  trace paged_run !! 12
    = Some (Called (AtExtend 0)
        (Extend [{| doc_id := 1%Z; doc_created := 700%Z;
                    etl_timestamp := Some 1000%Z |};
                 {| doc_id := 2%Z; doc_created := 710%Z;
                    etl_timestamp := Some 1000%Z |}]) true)
  ∧ trace paged_run !! 11
    = Some (Called (AtQuery 0) (SourceQuery 636%Z 0%Z 2) true)
  ∧ ∃ j lm batch,
      12 = S j
      ∧ trace paged_run !! j
        = Some (Called (AtQuery 0)
                  (SourceQuery (last_year_of (today (world four_rows calm) 0)) lm
                               (extractor_chunk_size (config 2))) true)
      ∧ batch = construct_docs (source (world four_rows calm) 0)
                  (get_ids (source (world four_rows calm) 0)
                     (last_year_of (today (world four_rows calm) 0)) lm
                     (extractor_chunk_size (config 2)))
      ∧ batch ≠ [].
Proof.
  assert (trace paged_run !! 12
    = Some (Called (AtExtend 0)
        (Extend [{| doc_id := 1%Z; doc_created := 700%Z;
                    etl_timestamp := Some 1000%Z |};
                 {| doc_id := 2%Z; doc_created := 710%Z;
                    etl_timestamp := Some 1000%Z |}]) true)) as Hi
    by (vm_compute; reflexivity).
  split; [exact Hi|]. split; [vm_compute; reflexivity|].
  destruct (delivered_batches_are_stamped (world four_rows calm) (config 2) 9
              false false false ∅ 12 0 _ true Hi)
    as (j & lm & batch & Hj & Hq & Hb & Hne & _).
  by exists j, lm, batch.
Defined.

(** ** Delivered and committed batches *)

Section Balance.
Context `{Libs} (env : Env) (settings : Settings).

Lemma deliveries_app t1 t2 : deliveries (t1 ++ t2) = deliveries t1 ++ deliveries t2.
Proof. unfold deliveries. apply omap_app. Qed.

Lemma deliveries_none (Q : Event → bool) t :
  (∀ e, Q e = true → is_extend e = false) →
  Forall (λ e, Q e = true) t → deliveries t = [].
Proof.
  intros HQ Ht. induction Ht as [|e t He Ht IH]; [done|].
  specialize (HQ e He). change (e :: t) with ([e] ++ t).
  rewrite deliveries_app, IH. by destruct e as [[] ? ?| |].
Qed.

Lemma loop_balance fuel n lm aid σ :
  length (commits (trace (loop env settings fuel n lm aid σ)))
  ≤ length (deliveries (trace (loop env settings fuel n lm aid σ)))
  ≤ S (length (commits (trace (loop env settings fuel n lm aid σ)))).
Proof.
  revert n lm aid σ. induction fuel as [|fuel IH]; intros n lm aid σ;
    [simpl; lia|].
  exec_loop. paths; try (simpl; lia).
  match goal with
  | E : loop _ _ _ ?n' ?lm' ?aid' ?σ' = _ |- _ =>
      specialize (IH n' lm' aid' σ'); rewrite E in IH; simpl in IH
  end.
  unfold commits, deliveries in *. simpl. lia.
Qed.

End Balance.

(** X7.  In any invocation the loop has committed a checkpoint for every
    batch it delivered, except possibly the last one: the successful
    deliveries are as many as the successful commits, or one more. *)
Theorem at_most_one_batch_uncommitted `{Libs} env settings fuel force restart merge σ :
  length (commits (trace (extract env settings fuel force restart merge σ)))
  ≤ length (deliveries (trace (extract env settings fuel force restart merge σ)))
  ≤ S (length (commits (trace (extract env settings fuel force restart merge σ)))).
Proof.
  rewrite extract_run, guarded_run. unfold finish_trace.
  pose proof (commits_none in_prelude _ ltac:(by intros [[] [] ?|[] ?|])
                (prelude_events env settings force restart merge σ)) as Hpc.
  pose proof (deliveries_none in_prelude _ ltac:(by intros [[] [] ?|[] ?|])
                (prelude_events env settings force restart merge σ)) as Hpd.
  destruct (negb (truthy (extractor_app_name settings))); [simpl; lia|].
  destruct (fails env AtDestination); [simpl; lia|].
  destruct (fails env AtFinalMerge); simpl.
  all: destruct (prelude _ _ _ _ _ _) as [[[st|exn|] σ1] t1]; simpl in *.
  all: try (pose proof (loop_balance env settings fuel 0 st.1 st.2 σ1) as Hl;
            destruct (loop _ _ _ _ _ _ _) as [[[[]|exn|] σ2] t2]; simpl in * ).
  all: change (Called AtDestination GetOrCreateTable true :: ?t)
         with ([Called AtDestination GetOrCreateTable true] ++ t).
  all: rewrite ?commits_app, ?deliveries_app, Hpc, Hpd.
  all: simpl; rewrite ?app_nil_r; simpl; lia.
Qed.

(** ** A stored state that cannot be read *)

Section Undecodable.
Context `{Libs} (env : Env) (settings : Settings).

Lemma prelude_undecodable force restart merge σ :
  recovered settings restart σ = None →
  (∃ e, result (prelude env settings force restart merge σ) = Raise e)
  ∧ store (prelude env settings force restart merge σ) = σ
  ∧ ((merge = true → fails env AtPreMerge = false) →
     fails env AtRedisOpen = false → fails env AtGetState = false →
     result (prelude env settings force restart merge σ) = Raise JsonError).
Proof.
  unfold recovered, resets. intros Hrec.
  destruct (restart || negb (truthy (σ !! extractor_key settings))) eqn:Hr;
    [done|].
  change (option_bind _ _ json2value (σ !! extractor_key settings) = None) in Hrec.
  exec. paths; try congruence.
  all: split_and!; eauto.
  all: intros Hm; try specialize (Hm eq_refl); congruence.
Qed.

End Undecodable.

(** X8.  When the stored state is not empty, cannot be decoded, and [restart]
    is not set, the invocation gives up before the schema guard, whatever
    [force] says: it changes nothing in the store, issues no query, delivers
    and commits nothing, and ends; the decoding error is the one caught when
    the calls before it return. *)
Theorem undecodable_state_aborts `{Libs} env settings fuel force restart merge σ :
  recovered settings restart σ = None →
  store (extract env settings fuel force restart merge σ) = σ
  ∧ result (extract env settings fuel force restart merge σ) ≠ Diverge
  ∧ Forall (λ e, is_query e = false ∧ is_extend e = false ∧ is_commit e = false)
           (trace (extract env settings fuel force restart merge σ))
  ∧ (reaches_reset env settings merge →
     result (guarded env settings fuel force restart merge σ) = Raise JsonError).
Proof.
  intros Hrec.
  destruct (prelude_undecodable env settings force restart merge σ Hrec)
    as ([exn Hres] & Hst & Hjson).
  pose proof (prelude_no_loop_event env settings force restart merge σ) as Hp.
  pose proof (finish_no_loop_event env) as Hf.
  rewrite extract_run, guarded_run.
  destruct (prelude _ _ _ _ _ _) as [[[st|exn'|] σ1] t1]; simpl in *; try done.
  subst σ1. split_and!.
  - by repeat case_match.
  - by repeat case_match.
  - repeat case_match; repeat constructor; try done.
    apply Forall_app. split; [done|]. by constructor.
  - intros (_ & _ & Hm & Ho & Hg). specialize (Hjson Hm Ho Hg). by simplify_eq.
Qed.

(** A stored state that is no JSON, and no [restart]. *)
Lemma undecodable_state_aborts_witness :
  recovered (config 2) false (<["alerts.state" := "garbage"]> ∅) = None
  ∧ store (extract (world four_rows calm) (config 2) 9 true false false
             (<["alerts.state" := "garbage"]> ∅))
    = <["alerts.state" := "garbage"]> ∅
  ∧ queries (trace (extract (world four_rows calm) (config 2) 9 true false false
                      (<["alerts.state" := "garbage"]> ∅))) = [].
Proof.
  assert (recovered (config 2) false (<["alerts.state" := "garbage"]> ∅) = None)
    as Hrec by (vm_compute; reflexivity).
  split_and!; [exact Hrec| |vm_compute; reflexivity].
  exact (proj1 (undecodable_state_aborts (world four_rows calm) (config 2) 9
                  true false false _ Hrec)).
Defined.

(** ** More on the extraction query *)

Lemma eligible_shrinks db (cutoff cutoff' lm lm' : Date) i :
  (cutoff ≤ cutoff')%Z → (lm ≤ lm')%Z →
  eligible db cutoff' lm' i → eligible db cutoff lm i.
Proof.
  intros Hc Hl (s & Hs & Hi & Hcr & Hu). exists s. split_and!; [done..|lia|].
  destruct Hu as [Hu|(a & Ha & Hai & Hu)]; [left; lia|].
  right. exists a. split_and!; [done..|lia].
Qed.

Lemma sorted_same_elements (l1 l2 : list Z) :
  StronglySorted Z.lt l1 → StronglySorted Z.lt l2 →
  (∀ x, x ∈ l1 ↔ x ∈ l2) → l1 = l2.
Proof.
  intros H1. revert l2. induction H1 as [|x l1 Hl1 IH Hx]; intros l2 H2 Hel.
  - destruct l2 as [|y l2]; [done|]. exfalso.
    apply (elem_of_nil y). apply Hel. left.
  - destruct H2 as [|y l2 Hl2 Hy].
    { exfalso. apply (elem_of_nil x). apply Hel. left. }
    rewrite Forall_forall in Hx, Hy.
    assert (x = y) as ->.
    { assert (x ∈ y :: l2) as Hxy by (apply Hel; left).
      assert (y ∈ x :: l1) as Hyx by (apply Hel; left).
      apply elem_of_cons in Hxy as [?|Hxy]; [done|].
      apply elem_of_cons in Hyx as [?|Hyx]; [done|].
      specialize (Hx _ Hyx). specialize (Hy _ Hxy). lia. }
    f_equal. apply IH; [done|]. intros z. split; intros Hz.
    + assert (z ∈ y :: l2) as Hz' by (apply Hel; by right).
      apply elem_of_cons in Hz' as [->|?]; [|done].
      specialize (Hx _ Hz). lia.
    + assert (z ∈ y :: l1) as Hz' by (apply Hel; by right).
      apply elem_of_cons in Hz' as [->|?]; [|done].
      specialize (Hy _ Hz). lia.
Qed.

(** X9.  Moving the checkpoint's timestamp or the retention cutoff forward
    only narrows the window: an identifier the later window selects is also
    selected by the earlier one. *)
Theorem window_narrows_forward db (cutoff cutoff' lm lm' : Date) i :
  (cutoff ≤ cutoff')%Z → (lm ≤ lm')%Z →
  i ∈ selected_ids db cutoff' lm' → i ∈ selected_ids db cutoff lm.
Proof.
  intros Hc Hl. rewrite !selected_ids_elem. by apply eligible_shrinks.
Qed.

(** Row 1 of the four rows is in the window of timestamp 730, hence in the
    one of timestamp 710. *)
Lemma window_narrows_forward_witness :
  (636 ≤ 636)%Z ∧ (710 ≤ 730)%Z
  ∧ 1%Z ∈ selected_ids four_rows 636%Z 730%Z
  ∧ 1%Z ∈ selected_ids four_rows 636%Z 710%Z.
Proof.
  assert (1%Z ∈ selected_ids four_rows 636%Z 730%Z) as Hin.
  { apply list_elem_of_lookup. exists 0. vm_compute. reflexivity. }
  split_and!; [lia|lia|exact Hin|].
  exact (window_narrows_forward four_rows 636%Z 636%Z 710%Z 730%Z 1%Z
           ltac:(lia) ltac:(lia) Hin).
Defined.

(** X10.  The result of the query depends on the rows the two tables hold,
    not on their order or on repeated rows: two sources with the same
    summary rows and the same alert rows give the same page of identifiers. *)
Theorem get_ids_depends_on_rows_only db db' (cutoff lm : Date) limit :
  (∀ s, s ∈ summaries db ↔ s ∈ summaries db') →
  (∀ a, a ∈ alerts db ↔ a ∈ alerts db') →
  get_ids db cutoff lm limit = get_ids db' cutoff lm limit.
Proof.
  intros Hs Ha. unfold get_ids. f_equal.
  apply sorted_same_elements.
  - apply group_order_by_id_sorted.
  - apply group_order_by_id_sorted.
  - intros i. rewrite !selected_ids_elem. unfold eligible.
    split; intros (s & Hin & Hrest); exists s.
    + split; [by apply Hs|]. destruct Hrest as (Hi & Hc & [Hu|(a & Hain & Hu)]).
      * split_and!; [done..|by left].
      * split_and!; [done..|]. right. exists a. split; [by apply Ha|done].
    + split; [by apply Hs|]. destruct Hrest as (Hi & Hc & [Hu|(a & Hain & Hu)]).
      * split_and!; [done..|by left].
      * split_and!; [done..|]. right. exists a. split; [by apply Ha|done].
Qed.

(** The four rows stored in the opposite order, the first one twice. *)
Lemma get_ids_depends_on_rows_only_witness :
  (∀ s, s ∈ summaries four_rows
        ↔ s ∈ summaries {| summaries := [summary4; summary3; summary1; summary2; summary1];
                           alerts := [] |})
  ∧ get_ids four_rows 636%Z 0%Z 3
    = get_ids {| summaries := [summary4; summary3; summary1; summary2; summary1];
                 alerts := [] |} 636%Z 0%Z 3.
Proof.
  assert (∀ s, s ∈ summaries four_rows
        ↔ s ∈ summaries {| summaries := [summary4; summary3; summary1; summary2; summary1];
                           alerts := [] |}) as Hs.
  { intros s. simpl. rewrite !elem_of_cons, !elem_of_nil. tauto. }
  split; [exact Hs|].
  apply get_ids_depends_on_rows_only; [exact Hs|done].
Defined.

(** ** The cursor of the loop *)

Section Cursor.
Context `{Libs} (env : Env) (settings : Settings).

Lemma loop_cursor fuel n lm aid σ m ly lm' limit ok :
  Called (AtQuery m) (SourceQuery ly lm' limit) ok
    ∈ trace (loop env settings fuel n lm aid σ) →
  ly = last_year_of (today env m)
  ∧ limit = extractor_chunk_size settings
  ∧ ((m = n ∧ lm' = lm)
     ∨ ∃ k acc last_doc,
         m = S k ∧ n ≤ k
         ∧ Called (AtExtend k) (Extend acc) true
             ∈ trace (loop env settings fuel n lm aid σ)
         ∧ last acc = Some last_doc
         ∧ lm' = doc_created last_doc
         ∧ extractor_chunk_size settings ≤ length acc).
Proof.
  revert n lm aid σ. induction fuel as [|fuel IH]; intros n lm aid σ.
  { intros Hin. by apply elem_of_nil in Hin. }
  exec_loop. paths; intros Hin.
  all: repeat (apply elem_of_cons in Hin as [Hin|Hin];
               [simplify_eq; try (split_and!; [done..|by left])|]).
  all: try (by apply elem_of_nil in Hin).
  match goal with
  | E : loop _ _ _ ?n' ?lm1 ?aid' ?σ' = _ |- _ =>
      specialize (IH n' lm1 aid' σ'); rewrite E in IH; simpl in IH;
      destruct (IH Hin) as (-> & -> & Hcase)
  end.
  split_and!; [done..|]. right.
  destruct Hcase as [[-> ->]|(k & acc & ld & -> & Hle & Hext & Hlast & -> & Hlen)].
  - eexists n, _, _. split_and!; [done|lia| |eassumption|done|].
    + do 3 right. left.
    + match goal with Hb : (_ <? _) = false |- _ => apply Nat.ltb_ge in Hb end.
      simpl. lia.
  - exists k, acc, ld. split_and!; [done|lia| |done..].
    by do 5 right.
Qed.

End Cursor.

(** X11.  The loop starts a further round only after a full page, and the
    window of that round starts at the [created] time of the last document
    of that page: every query of a round after the first has the cutoff of
    its round, the page size as limit and, as timestamp, the [created] of
    the last document of the batch delivered in the round before, which was
    not shorter than the page. *)
Theorem later_windows_start_at_created `{Libs} env settings fuel force restart merge σ
    k ly lm limit ok :
  Called (AtQuery (S k)) (SourceQuery ly lm limit) ok
    ∈ trace (extract env settings fuel force restart merge σ) →
  ly = last_year_of (today env (S k))
  ∧ limit = extractor_chunk_size settings
  ∧ ∃ acc last_doc,
      Called (AtExtend k) (Extend acc) true
        ∈ trace (extract env settings fuel force restart merge σ)
      ∧ last acc = Some last_doc
      ∧ lm = doc_created last_doc
      ∧ extractor_chunk_size settings ≤ length acc.
Proof.
  rewrite extract_run, guarded_run.
  pose proof (prelude_no_loop_event env settings force restart merge σ) as Hp.
  pose proof (finish_no_loop_event env) as Hf.
  assert (∀ t : list Event,
    Forall (λ e, is_query e = false ∧ is_extend e = false ∧ is_commit e = false) t →
    Called (AtQuery (S k)) (SourceQuery ly lm limit) ok ∈ t → False) as Hno.
  { intros t Ht Hin. eapply Forall_forall in Ht; [|exact Hin]. by destruct Ht. }
  destruct (negb (truthy (extractor_app_name settings))).
  { intros Hin. apply list_elem_of_singleton in Hin. done. }
  destruct (fails env AtDestination).
  { intros Hin. apply list_elem_of_singleton in Hin. done. }
  destruct (prelude _ _ _ _ _ _) as [[[st|exn|] σ1] t1]; simpl in *.
  - pose proof (loop_cursor env settings fuel 0 st.1 st.2 σ1 (S k) ly lm limit ok)
      as Hl.
    destruct (loop _ _ _ _ _ _ _) as [[[[]|exn|] σ2] t2]; simpl in *.
    all: intros Hin; apply elem_of_cons in Hin as [?|Hin]; [done|].
    all: rewrite ?elem_of_app, ?elem_of_cons in Hin.
    all: destruct_or?; try done; try (by destruct (Hno _ Hp));
      try (by destruct (Hno _ Hf)).
    all: destruct Hl as (-> & -> & [[? _]|(k' & acc & ld & ? & _ & Hext & Hlast & -> & Hlen)]);
      [done..|lia|]; simplify_eq.
    all: split_and!; [done..|]; exists acc, ld; split_and!; [|done..].
    all: rewrite elem_of_cons, ?elem_of_app; tauto.
  - intros Hin; apply elem_of_cons in Hin as [?|Hin]; [done|].
    rewrite ?elem_of_app, ?elem_of_cons in Hin.
    destruct_or?; try done; try (by destruct (Hno _ Hp)); by destruct (Hno _ Hf).
  - intros Hin; apply elem_of_cons in Hin as [?|Hin]; [done|].
    by destruct (Hno _ Hp).
Qed.

(** The second round of the run over four rows starts at 710, the [created]
    of the last document of the first page. *)
Lemma later_windows_start_at_created_witness :
  Called (AtQuery 1) (SourceQuery 636%Z 710%Z 2) true ∈ trace paged_run
  ∧ ∃ acc last_doc,
      Called (AtExtend 0) (Extend acc) true ∈ trace paged_run
      ∧ last acc = Some last_doc
      ∧ 710%Z = doc_created last_doc
      ∧ extractor_chunk_size (config 2) ≤ length acc.
Proof.
  assert (Called (AtQuery 1) (SourceQuery 636%Z 710%Z 2) true ∈ trace paged_run)
    as Hin.
  { apply list_elem_of_lookup. exists 16. vm_compute. reflexivity. }
  split; [exact Hin|].
  destruct (later_windows_start_at_created (world four_rows calm) (config 2) 9
              false false false ∅ 0 _ _ _ _ Hin) as (_ & _ & Hex).
  exact Hex.
Defined.

(** * The caller *)

Section Caller.
Context `{Libs} (startup_raises : StartupStep → option Exn) (env : Env)
  (settings : Settings).

Lemma startup_raises_iff :
  (∃ e, (startup startup_raises).1 = Some e)
  ↔ ∃ s e, startup_raises s = Some e.
Proof.
  unfold startup. split.
  - intros [e He].
    destruct (startup_raises ReadSettings) eqn:H1; [by eexists _, _|].
    destruct (startup_raises SetConstants) eqn:H2; [by eexists _, _|].
    destruct (startup_raises LogStart) eqn:H3; [by eexists _, _|]. done.
  - intros (s & e & Hs).
    destruct (startup_raises ReadSettings) eqn:H1; [by eexists|].
    destruct (startup_raises SetConstants) eqn:H2; [by eexists|].
    destruct (startup_raises LogStart) eqn:H3; [by eexists|].
    destruct s; congruence.
Qed.

Lemma startup_no_call :
  Forall (λ ev, ∀ e, ev ≠ Ev e) (startup startup_raises).2.
Proof. unfold startup. repeat case_match; simpl; repeat constructor; done. Qed.

End Caller.

(** X12.  [run] fails in three cases only, and always with the same error,
    "could not extract alerts": a startup call raised, the job identity is
    missing, or the destination table cannot be set up.  Trouble during the
    extraction itself never makes it fail.  When a startup call raised,
    [extract] was not entered: the store is untouched and no collaborator
    was called. *)
Theorem run_fails_only_on_setup `{Libs} startup_raises env settings fuel force
    restart merge σ :
  ((∃ e, (run startup_raises env settings fuel force restart merge σ).1.1
         = Raise e)
   ↔ (∃ s e, startup_raises s = Some e)
     ∨ truthy (extractor_app_name settings) = false
     ∨ fails env AtDestination = true)
  ∧ (∀ e, (run startup_raises env settings fuel force restart merge σ).1.1
          = Raise e → e = LogError "could not extract alerts")
  ∧ ((∃ s e, startup_raises s = Some e) →
     (run startup_raises env settings fuel force restart merge σ).1.2 = σ
     ∧ Forall (λ ev, ∀ s op ok, ev ≠ Ev (Called s op ok))
              (run startup_raises env settings fuel force restart merge σ).2).
Proof.
  pose proof (startup_raises_iff startup_raises) as Hs.
  pose proof (startup_no_call startup_raises) as Hn.
  unfold run, run_body. rewrite extract_run.
  destruct (startup startup_raises) as [[e0|] t0]; simpl in *.
  - split_and!.
    + split; [intros _; left; apply Hs; by eexists|by eexists].
    + intros e ?. by simplify_eq.
    + intros _. split; [done|]. apply Forall_app. split.
      * eapply Forall_impl; [exact Hn|]. intros ev Hev ? ? ?. apply Hev.
      * repeat constructor; done.
  - assert (¬ ∃ s e, startup_raises s = Some e) as Hnone.
    { intros Hex. apply Hs in Hex as [? ?]. done. }
    destruct (truthy (extractor_app_name settings)) eqn:Happ; simpl.
    + destruct (fails env AtDestination) eqn:Hdest; simpl.
      * split_and!; [split; [by right; right|by eexists]| |done].
        intros e ?. by simplify_eq.
      * destruct (guarded _ _ _ _ _ _ _) as [[[[]|exn|] σ1] t1]; simpl.
        all: split_and!; [split|done|done].
        all: intros H0; destruct_or?; try done; by destruct H0.
    + split_and!; [split; [by right; left|by eexists]| |done].
      intros e ?. by simplify_eq.
Qed.

Lemma finish_trace_ends env :
  ∃ t, finish_trace env = t ++ [LogStop].
Proof.
  unfold finish_trace. destruct (fails env AtFinalMerge).
  - by exists [Logged NOTE "done alert extraction";
               Called AtFinalMerge MergeShards false;
               Logged WARNING "problem with merge";
               Logged NOTE "done alert merge"].
  - by exists [Logged NOTE "done alert extraction";
               Called AtFinalMerge MergeShards true;
               Logged NOTE "done alert merge"].
Qed.

(** X13.  Whenever [run] ends, the last thing it did was to stop the log;
    and when it ends normally the log has been stopped twice in a row, once
    at the end of [extract] and once more by [run] itself. *)
Theorem run_stops_the_log `{Libs} startup_raises env settings fuel force
    restart merge σ :
  (run startup_raises env settings fuel force restart merge σ).1.1 ≠ Diverge →
  last (run startup_raises env settings fuel force restart merge σ).2
    = Some (Ev LogStop)
  ∧ ((run startup_raises env settings fuel force restart merge σ).1.1 = Ok () →
     ∃ t, (run startup_raises env settings fuel force restart merge σ).2
          = t ++ [Ev LogStop; Ev LogStop]).
Proof.
  unfold run, run_body. rewrite extract_run.
  destruct (finish_trace_ends env) as [tf Htf].
  destruct (startup startup_raises) as [[e0|] t0]; simpl.
  { intros _. split; [|done]. by rewrite last_app. }
  destruct (negb (truthy (extractor_app_name settings))); simpl.
  { intros _. split; [|done]. by rewrite last_app. }
  destruct (fails env AtDestination); simpl.
  { intros _. split; [|done]. by rewrite last_app. }
  destruct (guarded _ _ _ _ _ _ _) as [[[[]|exn|] σ1] t1]; simpl; intros Hd;
    [| |done].
  all: split; [by rewrite last_app|]; intros _; rewrite Htf.
  - exists (t0 ++ (Ev <$> (Called AtDestination GetOrCreateTable true :: t1 ++ tf))).
    do 3 (rewrite ?fmap_cons, ?fmap_app, <- ?app_assoc; simpl). done.
  - exists (t0 ++ (Ev <$> (Called AtDestination GetOrCreateTable true
                           :: t1 ++ Logged WARNING "problem with extraction" :: tf))).
    do 3 (rewrite ?fmap_cons, ?fmap_app, <- ?app_assoc; simpl). done.
Qed.

(** A run in which the second delivery and the final merge raise still ends
    normally, with the log stopped. *)
Lemma run_stops_the_log_witness :
  (run (λ _, None) (world four_rows second_delivery_fails) (config 2) 5
     false false false ∅).1.1 ≠ Diverge
  ∧ (run (λ _, None) (world four_rows second_delivery_fails) (config 2) 5
       false false false ∅).1.1 = Ok ()
  ∧ last (run (λ _, None) (world four_rows second_delivery_fails) (config 2) 5
            false false false ∅).2 = Some (Ev LogStop).
Proof.
  assert ((run (λ _, None) (world four_rows second_delivery_fails) (config 2) 5
             false false false ∅).1.1 = Ok ()) as Hok by (vm_compute; reflexivity).
  assert ((run (λ _, None) (world four_rows second_delivery_fails) (config 2) 5
             false false false ∅).1.1 ≠ Diverge) as Hd by (by rewrite Hok).
  split_and!; [exact Hd|exact Hok|].
  exact (proj1 (run_stops_the_log (λ _, None)
                  (world four_rows second_delivery_fails) (config 2) 5
                  false false false ∅ Hd)).
Defined.

(** * The pulse command *)

Section PulseCommand.
Context (p : Pulse).

Lemma bind_routing_keys_spec exchange_name keys new_bindings :
  bind_routing_keys p exchange_name keys new_bindings
  = (new_bindings ++ (get_binding_str p exchange_name <$> keys),
     key_events p exchange_name keys).
Proof.
  revert new_bindings. induction keys as [|k keys IH]; intros nb; simpl.
  - by rewrite app_nil_r.
  - rewrite IH. by rewrite <- app_assoc.
Qed.

Lemma bind_sources_all_exist sources new_bindings :
  all_exist p sources = true →
  bind_sources p sources new_bindings
  = (inr (new_bindings ++ configured_bindings p sources), source_events p sources).
Proof.
  revert new_bindings.
  induction sources as [|s sources IH]; intros nb Hall; simpl in *.
  - by rewrite app_nil_r.
  - apply andb_prop in Hall as [Hs Hall].
    rewrite Hs, bind_routing_keys_spec, IH by done. by rewrite <- app_assoc.
Qed.

Lemma bind_sources_missing before s after new_bindings :
  all_exist p before = true →
  exchange_exists p (exchange s) = false →
  bind_sources p (before ++ s :: after) new_bindings
  = (inl (ExchangeMissing (exchange s)),
     source_events p before ++ [EnsureExchange (exchange s) false]).
Proof.
  revert new_bindings.
  induction before as [|s0 before IH]; intros nb Hall Hs; simpl in *.
  - by rewrite Hs.
  - apply andb_prop in Hall as [Hs0 Hall].
    rewrite Hs0, bind_routing_keys_spec, IH by done. by rewrite <- app_assoc.
Qed.

(** Either every exchange exists, or there is a first one that does not. *)
Lemma first_missing sources :
  all_exist p sources = false →
  ∃ before s after,
    sources = before ++ s :: after ∧ all_exist p before = true
    ∧ exchange_exists p (exchange s) = false.
Proof.
  induction sources as [|s sources IH]; simpl; [done|].
  destruct (exchange_exists p (exchange s)) eqn:Hs; simpl.
  - intros (before & s' & after & -> & Hb & Hs')%IH.
    exists (s :: before), s', after. simpl. by rewrite Hs.
  - intros _. by exists [], s, sources.
Qed.

Lemma handle_all_exist sources :
  sources ≠ [] → all_exist p sources = true →
  handle p sources
  = ((run_consumer p).1,
     NewConsumer "resultsets"
       :: source_events p sources
       ++ PruneBindings (configured_bindings p sources)
       :: (run_consumer p).2 ++ [Release]).
Proof.
  intros Hne Hall. destruct sources as [|s sources]; [done|].
  unfold handle. rewrite (bind_sources_all_exist _ []) by done.
  by destruct (run_consumer p).
Qed.

Lemma handle_missing before s after :
  all_exist p before = true →
  exchange_exists p (exchange s) = false →
  handle p (before ++ s :: after)
  = (Some (ExchangeMissing (exchange s)),
     NewConsumer "resultsets"
       :: source_events p before ++ [EnsureExchange (exchange s) false; Release]).
Proof.
  intros Hall Hs. unfold handle.
  rewrite (bind_sources_missing _ _ _ []) by done.
  destruct before; simpl; [done|]. by rewrite <- !app_assoc.
Qed.

Lemma source_events_no_prune sources :
  existsb is_prune (source_events p sources) = false.
Proof.
  induction sources as [|s sources IH]; simpl; [done|].
  rewrite existsb_app, IH, orb_false_r. unfold key_events.
  by induction (routing_keys s).
Qed.

Lemma source_events_no_run sources :
  existsb is_consumer_run (source_events p sources) = false.
Proof.
  induction sources as [|s sources IH]; simpl; [done|].
  rewrite existsb_app, IH, orb_false_r. unfold key_events.
  by induction (routing_keys s).
Qed.

Lemma source_events_binds sources :
  length (List.filter is_bind (source_events p sources))
  = length (configured_bindings p sources).
Proof.
  unfold configured_bindings.
  induction sources as [|s sources IH]; simpl; [done|].
  rewrite List.filter_app, !length_app, IH, length_fmap. f_equal.
  unfold key_events. induction (routing_keys s) as [|k ks IHk]; simpl; [done|].
  by rewrite IHk.
Qed.

Lemma unique_split {E} (P : E → bool) pre x post before y after :
  pre ++ x :: post = before ++ y :: after →
  existsb P pre = false → existsb P post = false → P y = true →
  before = pre ∧ y = x ∧ after = post.
Proof.
  revert before. induction pre as [|a pre IH]; intros [|b before]; simpl;
    intros Heq Hpre Hpost Hy; simplify_eq.
  - done.
  - rewrite existsb_app in Hpost. simpl in Hpost.
    rewrite Hy, orb_true_r in Hpost. done.
  - rewrite Hy in Hpre. done.
  - apply orb_false_elim in Hpre as [_ Hpre].
    by destruct (IH before) as (-> & -> & ->).
Qed.

Lemma occurs_after {E} (Q : E → bool) pre x post before y after :
  pre ++ x :: post = before ++ y :: after →
  existsb Q pre = false → Q x = false → Q y = true →
  ∃ mid, before = pre ++ x :: mid.
Proof.
  revert before. induction pre as [|a pre IH]; intros [|b before]; simpl;
    intros Heq Hpre Hx Hy; simplify_eq.
  - congruence.
  - by eexists.
  - rewrite Hy in Hpre. done.
  - apply orb_false_elim in Hpre as [_ Hpre].
    destruct (IH before) as [mid ->]; [done..|]. by eexists.
Qed.

Lemma run_consumer_no_prune :
  existsb is_prune ((run_consumer p).2 ++ [Release]) = false.
Proof. unfold run_consumer. by destruct (run_ends p). Qed.

End PulseCommand.

(** X14.  When the configuration names at least one source and every
    exchange exists, the command declares each exchange and binds each of
    its routing keys in the order of the configuration, printing one line per
    binding; then it prunes the consumer once, to exactly the configured
    binding strings in that order; only then does the consumer run; and the
    connection is released last. *)
Theorem handle_prunes_to_configuration p sources :
  sources ≠ [] → all_exist p sources = true →
  (handle p sources).2
  = NewConsumer "resultsets"
      :: source_events p sources
      ++ PruneBindings (configured_bindings p sources)
      :: (run_consumer p).2 ++ [Release]
  ∧ existsb is_prune (source_events p sources) = false
  ∧ length (List.filter is_bind (handle p sources).2)
    = length (configured_bindings p sources).
Proof.
  intros Hne Hall. rewrite handle_all_exist by done. simpl.
  split_and!; [done|apply source_events_no_prune|].
  rewrite List.filter_app, length_app, source_events_binds.
  unfold run_consumer. destruct (run_ends p); simpl; lia.
Qed.

Lemma handle_prunes_to_configuration_witness :
  (handle (example_broker Returns) [github_source; hg_source]).2
  = [NewConsumer "resultsets";
     EnsureExchange "exchange/github" true;
     BindTo "exchange/github" "push.#";
     Write "Pulse queue queue/resultsets bound to: exchange/github push.#";
     BindTo "exchange/github" "pull.#";
     Write "Pulse queue queue/resultsets bound to: exchange/github pull.#";
     EnsureExchange "exchange/hg" true;
     BindTo "exchange/hg" "#";
     Write "Pulse queue queue/resultsets bound to: exchange/hg #";
     PruneBindings ["exchange/github push.#"; "exchange/github pull.#";
                    "exchange/hg #"];
     ConsumerRun; Release].
Proof.
  rewrite (proj1 (handle_prunes_to_configuration (example_broker Returns)
                    [github_source; hg_source] ltac:(done) ltac:(reflexivity))).
  reflexivity.
Defined.

(** X15.  When an exchange of the configuration does not exist, the command
    raises at the first such exchange: the sources before it have been bound
    and stay bound, nothing after it is declared or bound, the consumer is
    neither pruned nor run, and the connection is released. *)
Theorem missing_exchange_stops_before_prune p before s after :
  all_exist p before = true →
  exchange_exists p (exchange s) = false →
  (handle p (before ++ s :: after)).1 = Some (ExchangeMissing (exchange s))
  ∧ (handle p (before ++ s :: after)).2
    = NewConsumer "resultsets"
        :: source_events p before ++ [EnsureExchange (exchange s) false; Release]
  ∧ existsb is_prune (handle p (before ++ s :: after)).2 = false
  ∧ existsb is_consumer_run (handle p (before ++ s :: after)).2 = false.
Proof.
  intros Hall Hs. rewrite handle_missing by done. simpl.
  rewrite !existsb_app, source_events_no_prune, source_events_no_run.
  done.
Qed.

Lemma missing_exchange_stops_before_prune_witness :
  (handle (example_broker Returns) [hg_source; missing_source; github_source]).1
  = Some (ExchangeMissing "exchange/missing")
  ∧ (handle (example_broker Returns) [hg_source; missing_source; github_source]).2
    = [NewConsumer "resultsets";
       EnsureExchange "exchange/hg" true;
       BindTo "exchange/hg" "#";
       Write "Pulse queue queue/resultsets bound to: exchange/hg #";
       EnsureExchange "exchange/missing" false; Release].
Proof.
  pose proof (missing_exchange_stops_before_prune (example_broker Returns)
                [hg_source] missing_source [github_source]
                ltac:(reflexivity) ltac:(reflexivity)) as (H1 & H2 & _).
  split; [exact H1|exact H2].
Defined.

(** X16.  The command returns normally exactly when the configuration is not
    empty, every exchange exists and the consumer's run does not end in an
    exception other than a keyboard interrupt (which is caught).  With an
    empty configuration it raises [ImproperlyConfigured] before touching the
    connection; in every other case the last thing it does is release the
    connection. *)
Theorem handle_outcomes p sources :
  ((handle p sources).1 = None
   ↔ sources ≠ [] ∧ all_exist p sources = true ∧ run_ends p ≠ OtherException)
  ∧ (sources = [] ↔ (handle p sources).2 = [])
  ∧ (sources = []
     ↔ ∃ msg, (handle p sources).1 = Some (ImproperlyConfigured msg))
  ∧ (sources ≠ [] → last (handle p sources).2 = Some Release).
Proof.
  destruct sources as [|s0 sources'] eqn:Hsrc.
  { simpl. split_and!; [|done| |done].
    - split; [done|]. by intros [? _].
    - split; [by eexists|done]. }
  rewrite <- Hsrc. assert (sources ≠ []) as Hne by by subst.
  clear Hsrc s0 sources'.
  destruct (all_exist p sources) eqn:Hall.
  - rewrite handle_all_exist by done. simpl.
    split_and!.
    + unfold run_consumer. destruct (run_ends p); simpl; split; try done.
      all: by intros (_ & _ & ?).
    + done.
    + split; [done|]. intros [msg Hm]. exfalso. revert Hm.
      unfold run_consumer. by destruct (run_ends p).
    + intros _. rewrite app_comm_cons, (app_comm_cons _ _ (PruneBindings _)).
      by rewrite app_assoc, last_snoc.
  - destruct (first_missing p sources Hall) as (before & s & after & -> & Hb & Hs).
    rewrite handle_missing by done. simpl. split_and!.
    + split; [done|]. by intros (_ & ? & _).
    + done.
    + split; [done|]. by intros [msg Hm].
    + intros _. change [EnsureExchange (exchange s) false; Release]
        with ([EnsureExchange (exchange s) false] ++ [Release]).
      by rewrite app_comm_cons, app_assoc, last_snoc.
Qed.

(** X17.  Whatever the configuration and the broker: the consumer is pruned
    only when every configured exchange exists, then exactly once and to the
    configured binding strings; and the consumer runs only after it has been
    pruned. *)
Theorem prune_only_with_full_configuration p sources :
  (∀ before new_bindings after,
     (handle p sources).2 = before ++ PruneBindings new_bindings :: after →
     all_exist p sources = true
     ∧ new_bindings = configured_bindings p sources
     ∧ existsb is_prune before = false ∧ existsb is_prune after = false)
  ∧ (∀ before after, (handle p sources).2 = before ++ ConsumerRun :: after →
       existsb is_prune before = true).
Proof.
  destruct sources as [|s0 sources'] eqn:Hsrc.
  { simpl. split; [by intros [] ? ?|by intros [] ?]. }
  rewrite <- Hsrc. assert (sources ≠ []) as Hne by by subst.
  clear Hsrc s0 sources'.
  destruct (all_exist p sources) eqn:Hall.
  - rewrite handle_all_exist by done. cbn [snd]. split.
    + intros before nb after Heq. rewrite app_comm_cons in Heq.
      apply (unique_split is_prune) in Heq as (-> & Hnb & ->).
      * simplify_eq. split_and!; [done..| |apply run_consumer_no_prune].
        apply source_events_no_prune.
      * apply source_events_no_prune.
      * apply run_consumer_no_prune.
      * done.
    + intros before after Heq. rewrite app_comm_cons in Heq.
      apply (occurs_after is_consumer_run) in Heq as [mid ->]; [| |done..].
      * rewrite existsb_app. simpl. by rewrite orb_true_r.
      * apply source_events_no_run.
  - destruct (first_missing p sources Hall) as (pre & s & post & -> & Hb & Hs).
    rewrite handle_missing by done. cbn [snd]. split.
    + intros before nb after Heq. exfalso.
      assert (existsb is_prune (before ++ PruneBindings nb :: after) = true) as Ht.
      { rewrite existsb_app. simpl. by rewrite orb_true_r. }
      rewrite <- Heq in Ht. simpl in Ht.
      by rewrite existsb_app, source_events_no_prune in Ht.
    + intros before after Heq. exfalso.
      assert (existsb is_consumer_run (before ++ ConsumerRun :: after) = true) as Ht.
      { rewrite existsb_app. simpl. by rewrite orb_true_r. }
      rewrite <- Heq in Ht. simpl in Ht.
      by rewrite existsb_app, source_events_no_run in Ht.
Qed.
